(** * The explore page and its pannable canvas

    A shallow embedding of the two React components of the repository:

    - [Canvas]  : [src/components/draggable-canvas.tsx], the pan/zoom viewport;
    - [Explore] : the explore page ([src/unnamed/part_000]), which fetches
      posts, has them placed around a centre, and owns the upload form.

    A React component is read as a state machine: the values held by
    [useState] form a record, every [setX] call is a field update, and every
    event handler is a function from the state of the render it was created
    in to the state of the next render.  Handlers are run one at a time and
    each sees the state left by the previous one.

    A JavaScript [number] is an IEEE-754 binary64 number.  [Double] has
    these numbers and their operations, and [DoubleCanvas] is the canvas on
    them: the value of the pan a drag gives is settled there, and so is the
    range of the scale.  [Canvas] and [Explore] read a [number] as the exact
    rational it denotes ([Qc], the rationals in lowest terms, whose equality
    is Leibniz equality), where [NaN], the infinities and binary rounding do
    not exist; [Canvas] serves for what does not depend on rounding: the
    order of the scale and its bounds, the constants [resetView] stores, and
    which handler writes which cell. *)

From Stdlib Require Import QArith Qcanon ZArith Bool List String Ascii Lia.
From Stdlib Require Import SpecFloat.
Import ListNotations.

(** ** Numbers *)

Module JS.

Definition number := Qc.

(** [Math.max(a, b)] and [Math.min(a, b)] on two numbers. *)
Definition Math_max (a b : number) : number :=
  match (a ?= b)%Qc with Lt => b | _ => a end.

Definition Math_min (a b : number) : number :=
  match (a ?= b)%Qc with Gt => b | _ => a end.

End JS.

(** ** Numbers as IEEE-754 doubles *)

Module Double.

(** Binary64: 53 bits of precision, the infinities at exponent 1024. *)
Definition prec : Z := 53.
Definition emax : Z := 1024.

Definition double := spec_float.

Definition of_Z (z : Z) : double := binary_normalize prec emax z 0 false.

Definition add : double -> double -> double := SFadd prec emax.
Definition sub : double -> double -> double := SFsub prec emax.
Definition mul : double -> double -> double := SFmul prec emax.
Definition div : double -> double -> double := SFdiv prec emax.
Definition neg : double -> double := SFopp.

(** The literals [0.3], [0.001] and [3]: a decimal literal denotes the double
    nearest to it, which the correctly rounded quotient of two integers
    gives. *)
Definition lit_0_3 : double := Eval vm_compute in div (of_Z 3) (of_Z 10).
Definition lit_0_001 : double := Eval vm_compute in div (of_Z 1) (of_Z 1000).
Definition lit_3 : double := Eval vm_compute in of_Z 3.
Definition lit_0 : double := Eval vm_compute in of_Z 0.
Definition lit_1 : double := Eval vm_compute in of_Z 1.

(** The decimal literal with one digit after the point that denotes
    [n / 10]: the double nearest to it. *)
Definition tenths (n : Z) : double := div (of_Z n) (of_Z 10).

(** The integers every double operation is exact on
    ([Number.isSafeInteger]): those of magnitude below [2 ^ 53]. *)
Definition safe_integer (z : Z) : Prop := (Z.abs z < 2 ^ 53)%Z.

(** [shl p k]: the binary numeral [p] followed by [k] zero bits. *)
Definition shl (p : positive) (k : nat) : positive := Nat.iter k xO p.

Definition sign (z : Z) : bool :=
  match z with Zneg _ => true | _ => false end.

Definition isNaN (d : double) : bool :=
  match d with S754_nan => true | _ => false end.

(** [Math.max] and [Math.min] of two doubles: [NaN] when an argument is
    [NaN], and [+0] counts as larger than [-0]. *)
Definition Math_max (a b : double) : double :=
  match SFcompare a b with
  | None => S754_nan
  | Some Lt => b
  | Some Gt => a
  | Some Eq => match a with S754_zero true => b | _ => a end
  end.

Definition Math_min (a b : double) : double :=
  match SFcompare a b with
  | None => S754_nan
  | Some Lt => a
  | Some Gt => b
  | Some Eq => match a with S754_zero false => b | _ => a end
  end.

(** The value [handleWheel] passes to [setScale], from the current scale and
    the [deltaY] of the event. *)
Definition newScale (scale deltaY : double) : double :=
  let delta := mul deltaY (neg lit_0_001) in
  Math_min (Math_max lit_0_3 (add scale delta)) lit_3.

(** The allowed zoom range, in the order of [SFcompare] (the order of the
    reals on the canonical representations the operations work on). *)
Definition in_range (d : double) : bool := SFleb lit_0_3 d && SFleb d lit_3.

(** The scale after a sequence of wheel events, given by their [deltaY],
    from the initial scale [0.3]. *)
Definition scale_after (deltas : list double) : double :=
  fold_left newScale deltas lit_0_3.

End Double.

(** ** draggable-canvas.tsx *)

Module Canvas.
Import JS.
Local Open Scope Qc_scope.

Record Point := mkPoint { x : number; y : number }.

Module MouseEvent.
Record t := mk { button : Z; clientX : number; clientY : number }.
End MouseEvent.

Module Touch.
Record t := mk { clientX : number; clientY : number }.
End Touch.

Module TouchEvent.
Record t := mk { touches : list Touch.t }.
End TouchEvent.

Module WheelEvent.
Record t := mk { deltaY : number }.
End WheelEvent.

(** The four [useState] cells of [DraggableCanvas]. *)
Record State := mkState {
  pan : Point;
  scale : number;
  isDragging : bool;
  dragStart : Point
}.

(** The initial values given to [useState]. *)
Definition initial : State :=
  {| pan := {| x := 0; y := 0 |};
     scale := Q2Qc 0.3;
     isDragging := false;
     dragStart := {| x := 0; y := 0 |} |}.

Definition setPan (p : Point) (st : State) : State :=
  {| pan := p; scale := scale st;
     isDragging := isDragging st; dragStart := dragStart st |}.

Definition setScale (s : number) (st : State) : State :=
  {| pan := pan st; scale := s;
     isDragging := isDragging st; dragStart := dragStart st |}.

Definition setIsDragging (b : bool) (st : State) : State :=
  {| pan := pan st; scale := scale st;
     isDragging := b; dragStart := dragStart st |}.

Definition setDragStart (p : Point) (st : State) : State :=
  {| pan := pan st; scale := scale st;
     isDragging := isDragging st; dragStart := p |}.

(** Each handler reads the state [st] of the render that created it and
    queues its updates; the result is the state of the next render. *)

Definition handleMouseDown (e : MouseEvent.t) (st : State) : State :=
  if negb (MouseEvent.button e =? 0)%Z then st
  else
    setDragStart
      {| x := MouseEvent.clientX e - x (pan st);
         y := MouseEvent.clientY e - y (pan st) |}
      (setIsDragging true st).

Definition handleMouseMove (e : MouseEvent.t) (st : State) : State :=
  if negb (isDragging st) then st
  else
    setPan
      {| x := MouseEvent.clientX e - x (dragStart st);
         y := MouseEvent.clientY e - y (dragStart st) |}
      st.

Definition handleMouseUp (st : State) : State := setIsDragging false st.

Definition handleMouseLeave (st : State) : State := setIsDragging false st.

Definition handleTouchStart (e : TouchEvent.t) (st : State) : State :=
  match TouchEvent.touches e with
  | [t0] =>
      setDragStart
        {| x := Touch.clientX t0 - x (pan st);
           y := Touch.clientY t0 - y (pan st) |}
        (setIsDragging true st)
  | _ => st
  end.

Definition handleTouchMove (e : TouchEvent.t) (st : State) : State :=
  match TouchEvent.touches e with
  | [t0] =>
      if negb (isDragging st) then st
      else
        setPan
          {| x := Touch.clientX t0 - x (dragStart st);
             y := Touch.clientY t0 - y (dragStart st) |}
          st
  | _ => st
  end.

Definition handleTouchEnd (st : State) : State := setIsDragging false st.

Definition handleWheel (e : WheelEvent.t) (st : State) : State :=
  let delta := WheelEvent.deltaY e * Q2Qc (-0.001) in
  let newScale := Math_min (Math_max (Q2Qc 0.3) (scale st + delta)) (Q2Qc 3) in
  setScale newScale st.

Definition resetView (st : State) : State :=
  setScale 1 (setPan {| x := 0; y := 0 |} st).

(** The events the component listens to: the eight handlers bound on the
    container and the click on the reset button. *)
Inductive Event :=
| OnMouseDown (e : MouseEvent.t)
| OnMouseMove (e : MouseEvent.t)
| OnMouseUp
| OnMouseLeave
| OnTouchStart (e : TouchEvent.t)
| OnTouchMove (e : TouchEvent.t)
| OnTouchEnd
| OnWheel (e : WheelEvent.t)
| OnClickReset.

Definition step (st : State) (ev : Event) : State :=
  match ev with
  | OnMouseDown e => handleMouseDown e st
  | OnMouseMove e => handleMouseMove e st
  | OnMouseUp => handleMouseUp st
  | OnMouseLeave => handleMouseLeave st
  | OnTouchStart e => handleTouchStart e st
  | OnTouchMove e => handleTouchMove e st
  | OnTouchEnd => handleTouchEnd st
  | OnWheel e => handleWheel e st
  | OnClickReset => resetView st
  end.

Definition run (st : State) (evs : list Event) : State := fold_left step evs st.

(** Vocabulary of the statements. *)

(** The allowed zoom range of the viewport. *)
Definition in_range (s : number) : Prop := Q2Qc 0.3 <= s /\ s <= Q2Qc 3.

(** [clamp v lo hi] as the specification words it: [v] brought back to the
    nearest bound when it lies outside [lo .. hi]. *)
Definition clamp (v lo hi : number) : number :=
  match v ?= lo with
  | Lt => lo
  | _ => match hi ?= v with Lt => hi | _ => v end
  end.

Definition psub (p q : Point) : Point := {| x := x p - x q; y := y p - y q |}.

Definition touchPoint (t0 : Touch.t) : Point :=
  {| x := Touch.clientX t0; y := Touch.clientY t0 |}.

(** An event that begins a drag: a left-button mouse-down or a touch-start
    with exactly one touch. *)
Definition begins_drag (ev : Event) : bool :=
  match ev with
  | OnMouseDown e => (MouseEvent.button e =? 0)%Z
  | OnTouchStart e => (List.length (TouchEvent.touches e) =? 1)%nat
  | _ => false
  end.

(** An event that ends a drag: mouse-up, mouse-leave or touch-end. *)
Definition ends_drag (ev : Event) : bool :=
  match ev with
  | OnMouseUp | OnMouseLeave | OnTouchEnd => true
  | _ => false
  end.

Definition is_move (ev : Event) : bool :=
  match ev with
  | OnMouseMove _ | OnTouchMove _ => true
  | _ => false
  end.

(** A pointer-down of any kind: any mouse button, any number of touches. *)
Definition is_pointer_down (ev : Event) : bool :=
  match ev with
  | OnMouseDown _ | OnTouchStart _ => true
  | _ => false
  end.

(** [since start evs]: an event of [evs] satisfies [start] and is followed by
    no pointer-up or leave. *)
Definition since (start : Event -> bool) (evs : list Event) : Prop :=
  exists before d after,
    evs = before ++ d :: after
    /\ start d = true
    /\ forallb (fun ev => negb (ends_drag ev)) after = true.

(** At the end of [evs] a drag is under way. *)
Definition within_drag (evs : list Event) : Prop := since begins_drag evs.

(** At the end of [evs] a pointer is down. *)
Definition pointer_is_down (evs : list Event) : Prop :=
  since is_pointer_down evs.

(** The last sentence of the temporal claim on drags, as it is worded: in a
    run from the initial state the pan changes only between a pointer-down
    and the next pointer-up or leave. *)
Definition pan_changes_only_within_drag : Prop :=
  forall (evs : list Event) (ev : Event),
    pan (step (run initial evs) ev) <> pan (run initial evs) ->
    pointer_is_down evs.

(** *** The rendered view *)

(** [cursor: isDragging ? 'grabbing' : 'grab'] *)
Definition cursor (st : State) : string :=
  if isDragging st then "grabbing" else "grab".

(** *** Vocabulary on the scale *)

Definition is_wheel (ev : Event) : bool :=
  match ev with OnWheel _ => true | _ => false end.

(** The events that can change the scale: the wheel and the reset click. *)
Definition sets_scale (ev : Event) : bool :=
  match ev with OnWheel _ | OnClickReset => true | _ => false end.

End Canvas.

(** ** draggable-canvas.tsx on doubles

    The same component, its numbers being doubles: every [-] of the handlers
    is the subtraction of doubles, and the wheel computes [Double.newScale]. *)

Module DoubleCanvas.
Import Double.

Record Point := mkPoint { x : double; y : double }.

Module MouseEvent.
Record t := mk { button : Z; clientX : double; clientY : double }.
End MouseEvent.

Module Touch.
Record t := mk { clientX : double; clientY : double }.
End Touch.

Module TouchEvent.
Record t := mk { touches : list Touch.t }.
End TouchEvent.

Module WheelEvent.
Record t := mk { deltaY : double }.
End WheelEvent.

(** The four [useState] cells of [DraggableCanvas]. *)
Record State := mkState {
  pan : Point;
  scale : double;
  isDragging : bool;
  dragStart : Point
}.

(** The initial values given to [useState]. *)
Definition initial : State :=
  {| pan := {| x := lit_0; y := lit_0 |};
     scale := lit_0_3;
     isDragging := false;
     dragStart := {| x := lit_0; y := lit_0 |} |}.

Definition setPan (p : Point) (st : State) : State :=
  {| pan := p; scale := scale st;
     isDragging := isDragging st; dragStart := dragStart st |}.

Definition setScale (s : double) (st : State) : State :=
  {| pan := pan st; scale := s;
     isDragging := isDragging st; dragStart := dragStart st |}.

Definition setIsDragging (b : bool) (st : State) : State :=
  {| pan := pan st; scale := scale st;
     isDragging := b; dragStart := dragStart st |}.

Definition setDragStart (p : Point) (st : State) : State :=
  {| pan := pan st; scale := scale st;
     isDragging := isDragging st; dragStart := p |}.

Definition handleMouseDown (e : MouseEvent.t) (st : State) : State :=
  if negb (MouseEvent.button e =? 0)%Z then st
  else
    setDragStart
      {| x := sub (MouseEvent.clientX e) (x (pan st));
         y := sub (MouseEvent.clientY e) (y (pan st)) |}
      (setIsDragging true st).

Definition handleMouseMove (e : MouseEvent.t) (st : State) : State :=
  if negb (isDragging st) then st
  else
    setPan
      {| x := sub (MouseEvent.clientX e) (x (dragStart st));
         y := sub (MouseEvent.clientY e) (y (dragStart st)) |}
      st.

Definition handleMouseUp (st : State) : State := setIsDragging false st.

Definition handleMouseLeave (st : State) : State := setIsDragging false st.

Definition handleTouchStart (e : TouchEvent.t) (st : State) : State :=
  match TouchEvent.touches e with
  | [t0] =>
      setDragStart
        {| x := sub (Touch.clientX t0) (x (pan st));
           y := sub (Touch.clientY t0) (y (pan st)) |}
        (setIsDragging true st)
  | _ => st
  end.

Definition handleTouchMove (e : TouchEvent.t) (st : State) : State :=
  match TouchEvent.touches e with
  | [t0] =>
      if negb (isDragging st) then st
      else
        setPan
          {| x := sub (Touch.clientX t0) (x (dragStart st));
             y := sub (Touch.clientY t0) (y (dragStart st)) |}
          st
  | _ => st
  end.

Definition handleTouchEnd (st : State) : State := setIsDragging false st.

Definition handleWheel (e : WheelEvent.t) (st : State) : State :=
  setScale (newScale (scale st) (WheelEvent.deltaY e)) st.

Definition resetView (st : State) : State :=
  setScale lit_1 (setPan {| x := lit_0; y := lit_0 |} st).

Inductive Event :=
| OnMouseDown (e : MouseEvent.t)
| OnMouseMove (e : MouseEvent.t)
| OnMouseUp
| OnMouseLeave
| OnTouchStart (e : TouchEvent.t)
| OnTouchMove (e : TouchEvent.t)
| OnTouchEnd
| OnWheel (e : WheelEvent.t)
| OnClickReset.

Definition step (st : State) (ev : Event) : State :=
  match ev with
  | OnMouseDown e => handleMouseDown e st
  | OnMouseMove e => handleMouseMove e st
  | OnMouseUp => handleMouseUp st
  | OnMouseLeave => handleMouseLeave st
  | OnTouchStart e => handleTouchStart e st
  | OnTouchMove e => handleTouchMove e st
  | OnTouchEnd => handleTouchEnd st
  | OnWheel e => handleWheel e st
  | OnClickReset => resetView st
  end.

Definition run (st : State) (evs : list Event) : State := fold_left step evs st.

(** Vocabulary of the statements. *)

Definition padd (p q : Point) : Point :=
  {| x := add (x p) (x q); y := add (y p) (y q) |}.
Definition psub (p q : Point) : Point :=
  {| x := sub (x p) (x q); y := sub (y p) (y q) |}.

Definition pointer (e : MouseEvent.t) : Point :=
  {| x := MouseEvent.clientX e; y := MouseEvent.clientY e |}.

Definition touchPoint (t0 : Touch.t) : Point :=
  {| x := Touch.clientX t0; y := Touch.clientY t0 |}.

(** An event that begins a drag: a left-button mouse-down or a touch-start
    with exactly one touch. *)
Definition begins_drag (ev : Event) : bool :=
  match ev with
  | OnMouseDown e => (MouseEvent.button e =? 0)%Z
  | OnTouchStart e => (List.length (TouchEvent.touches e) =? 1)%nat
  | _ => false
  end.

(** An event that ends a drag: mouse-up, mouse-leave or touch-end. *)
Definition ends_drag (ev : Event) : bool :=
  match ev with
  | OnMouseUp | OnMouseLeave | OnTouchEnd => true
  | _ => false
  end.

(** An event that leaves a drag as it is. *)
Definition keeps_anchor (ev : Event) : bool :=
  negb (begins_drag ev) && negb (ends_drag ev).

Definition is_move (ev : Event) : bool :=
  match ev with
  | OnMouseMove _ | OnTouchMove _ => true
  | _ => false
  end.

(** The position an event carries: the pointer of a mouse event, the touch
    of a touch event with exactly one touch. *)
Definition position (ev : Event) : option Point :=
  match ev with
  | OnMouseDown e | OnMouseMove e => Some (pointer e)
  | OnTouchStart e | OnTouchMove e =>
      match TouchEvent.touches e with
      | [t0] => Some (touchPoint t0)
      | _ => None
      end
  | _ => None
  end.

(** The drag claim as the specification words it: in a run from the initial
    state, after a left-button mouse-down at [e0] and events that neither
    end the drag nor begin another, a mouse-move to [e] sets the pan to
    [pan0 + (p - p0)]. *)
Definition drag_sets_pan_to_pan0_plus_delta : Prop :=
  forall (evs : list Event) (e0 : MouseEvent.t) (mids : list Event)
         (e : MouseEvent.t),
    MouseEvent.button e0 = 0%Z ->
    forallb keeps_anchor mids = true ->
    pan (run (run initial evs) (OnMouseDown e0 :: mids ++ [OnMouseMove e]))
    = padd (pan (run initial evs)) (psub (pointer e) (pointer e0)).

(** *** Whole pixels *)

(** A position with integer coordinates. *)
Record Pixel := mkPixel { px : Z; py : Z }.

Definition at_pixel (q : Pixel) : Point :=
  {| x := of_Z (px q); y := of_Z (py q) |}.

Definition pixel_add (a b : Pixel) : Pixel :=
  {| px := px a + px b; py := py a + py b |}.
Definition pixel_sub (a b : Pixel) : Pixel :=
  {| px := px a - px b; py := py a - py b |}.

(** Coordinates of magnitude at most [2 ^ 51]: the sums and differences of
    three of them are safe integers. *)
Definition small (q : Pixel) : Prop :=
  (Z.abs (px q) <= 2 ^ 51 /\ Z.abs (py q) <= 2 ^ 51)%Z.

(** A complete mouse drag: the left button goes down at the pixel [from],
    the mouse passes through the points [via], reaches the pixel [to], and
    the button is released. *)
Record Drag := mkDrag { from : Pixel; via : list Point; to : Pixel }.

Definition mouse_at (button : Z) (p : Point) : MouseEvent.t :=
  MouseEvent.mk button (x p) (y p).

Definition drag_events (d : Drag) : list Event :=
  OnMouseDown (mouse_at 0 (at_pixel (from d)))
  :: map (fun p => OnMouseMove (mouse_at 0 p)) (via d)
  ++ [OnMouseMove (mouse_at 0 (at_pixel (to d))); OnMouseUp].

(** The pan expected after one drag and after the drags [ds], starting from
    the pan [q]: each drag adds the vector from its first point to its
    last. *)
Definition moved (q : Pixel) (d : Drag) : Pixel :=
  pixel_add q (pixel_sub (to d) (from d)).

Definition moved_by (ds : list Drag) (q : Pixel) : Pixel :=
  fold_left moved ds q.

(** The drags [ds], begun with the pan at [q], stay within small
    coordinates: the end points of every drag and the pan it begins with. *)
Fixpoint drags_fit (q : Pixel) (ds : list Drag) : Prop :=
  match ds with
  | [] => True
  | d :: ds' =>
      small q /\ small (from d) /\ small (to d) /\ drags_fit (moved q d) ds'
  end.

End DoubleCanvas.

(** ** The explore page *)

Module Explore.
Import JS.

(** *** Strings

    A string is a sequence of code units; the model covers the code units
    below 256 (ASCII and the Latin-1 supplement), one [ascii] each. *)

Definition is_empty (s : string) : bool :=
  match s with EmptyString => true | String _ _ => false end.

(** White space and line terminators removed by [String.prototype.trim]:
    TAB, LF, VT, FF, CR, SPACE and NO-BREAK SPACE. *)
Definition isWhiteSpace (c : ascii) : bool :=
  let n := N_of_ascii c in
  ((9 <=? n) && (n <=? 13) || (n =? 32) || (n =? 160))%N.

Fixpoint trimStart (s : string) : string :=
  match s with
  | EmptyString => EmptyString
  | String c s' => if isWhiteSpace c then trimStart s' else s
  end.

Fixpoint trimEnd (s : string) : string :=
  match s with
  | EmptyString => EmptyString
  | String c s' =>
      let r := trimEnd s' in
      if isWhiteSpace c && is_empty r then EmptyString else String c r
  end.

Definition trim (s : string) : string := trimEnd (trimStart s).

(** [s.replace(/^#/, '')]: the pattern matches one ['#'] at the start of the
    string, and that occurrence is replaced by the empty string. *)
Definition replace_leading_hash (s : string) : string :=
  match s with
  | String "#"%char s' => s'
  | _ => s
  end.

(** Lower case of one code unit: [A]-[Z], and the capital letters of the
    Latin-1 supplement (U+00C0-U+00DE, the multiplication sign U+00D7 apart)
    move up by 32; the others have no lower case of their own. *)
Definition lowerUnit (c : ascii) : ascii :=
  let n := N_of_ascii c in
  if ((65 <=? n) && (n <=? 90)
      || (192 <=? n) && (n <=? 222) && negb (n =? 215))%N
  then ascii_of_N (n + 32)
  else c.

Fixpoint toLowerCase (s : string) : string :=
  match s with
  | EmptyString => EmptyString
  | String c s' => String (lowerUnit c) (toLowerCase s')
  end.

(** [xs.includes(v)] on an array of strings. *)
Definition includes (xs : list string) (v : string) : bool :=
  existsb (String.eqb v) xs.

(** *** Data

    [Post], [PlacedImage] and [ImageDimensions] are declared in
    [@/lib/circular-placement], which is not part of the sources. *)

Module Post.
(** Modelled from the spec: the declaration of [Post] is missing; a post has
    an identifier, an image reference, an uploader name, a hashtag sequence
    and a creation timestamp (the page reads [id], [image_url] and
    [posted_by]). *)
Record t := mk {
  id : string;
  image_url : string;
  posted_by : string;
  hashtags : list string;
  created_at : string
}.
End Post.

Module ImageDimensions.
(** Modelled from the spec: the declaration of [ImageDimensions] is missing;
    it holds the intrinsic width and height of an image. *)
Record t := mk { width : number; height : number }.
End ImageDimensions.

(** [Map<string, ImageDimensions>]; the page only stores it and hands it to
    the placement. *)
Definition Dimensions := list (string * ImageDimensions.t).

Module PlacedImage.
(** Modelled from the spec: the declaration of [PlacedImage] is missing; it
    pairs a post with its offset from the shared origin and its size (the
    page reads [post], [x], [y], [width] and [height]). *)
Record t := mk {
  post : Post.t;
  x : number;
  y : number;
  width : number;
  height : number
}.
End PlacedImage.

Module TrendingHashtag.
Record t := mk { hashtag : string; count : number }.
End TrendingHashtag.

Module Student.
Record t := mk { full_name : string }.
End Student.

(** A selected file, known by its name. *)
Definition File := string.

Module FormData.
Record t := mk { image : File; hashtags : list string; posted_by : string }.
End FormData.

(** The requests the page sends: [GET /api/explore/posts], with the
    [hashtag] parameter or without it, [GET /api/explore/trending?limit=5],
    and [POST /api/explore/upload]. *)
Inductive Request :=
| GetPosts (hashtag : option string)
| GetTrending
| PostUpload (body : FormData.t).

(** The value [fetch] resolves to, known by the request it answers. *)
Definition Response := Request.

Module Body.
(** What [response.json()] resolves to: the fields the page reads off the
    bodies of the three endpoints ([success] of all three, [posts] and
    [total_count] of the posts, [trending] of the trending hashtags, [error]
    of the upload). *)
Record t := mk {
  success : bool;
  posts : list Post.t;
  total_count : number;
  trending : list TrendingHashtag.t;
  error : string
}.
End Body.

(** The [useState] cells of [ExplorePage]. *)
Record State := mkState {
  student : option Student.t;
  posts : list Post.t;
  placedImages : list PlacedImage.t;
  imageDimensions : Dimensions;
  totalPosts : number;
  trendingHashtags : list TrendingHashtag.t;
  loading : bool;
  searchQuery : string;
  uploadModalOpen : bool;
  selectedImage : option File;
  imagePreview : string;
  hashtags : list string;
  hashtagInput : string;
  uploading : bool
}.

(** The initial values given to [useState]. *)
Definition initial : State :=
  {| student := None; posts := []; placedImages := []; imageDimensions := [];
     totalPosts := 0%Qc; trendingHashtags := []; loading := true;
     searchQuery := ""; uploadModalOpen := false; selectedImage := None;
     imagePreview := ""; hashtags := []; hashtagInput := "";
     uploading := false |}.

Definition setStudent (v : option Student.t) (st : State) : State :=
  {| student := v; posts := posts st; placedImages := placedImages st;
     imageDimensions := imageDimensions st; totalPosts := totalPosts st;
     trendingHashtags := trendingHashtags st; loading := loading st;
     searchQuery := searchQuery st; uploadModalOpen := uploadModalOpen st;
     selectedImage := selectedImage st; imagePreview := imagePreview st;
     hashtags := hashtags st; hashtagInput := hashtagInput st;
     uploading := uploading st |}.

Definition setPosts (v : list Post.t) (st : State) : State :=
  {| student := student st; posts := v; placedImages := placedImages st;
     imageDimensions := imageDimensions st; totalPosts := totalPosts st;
     trendingHashtags := trendingHashtags st; loading := loading st;
     searchQuery := searchQuery st; uploadModalOpen := uploadModalOpen st;
     selectedImage := selectedImage st; imagePreview := imagePreview st;
     hashtags := hashtags st; hashtagInput := hashtagInput st;
     uploading := uploading st |}.

Definition setPlacedImages (v : list PlacedImage.t) (st : State) : State :=
  {| student := student st; posts := posts st; placedImages := v;
     imageDimensions := imageDimensions st; totalPosts := totalPosts st;
     trendingHashtags := trendingHashtags st; loading := loading st;
     searchQuery := searchQuery st; uploadModalOpen := uploadModalOpen st;
     selectedImage := selectedImage st; imagePreview := imagePreview st;
     hashtags := hashtags st; hashtagInput := hashtagInput st;
     uploading := uploading st |}.

Definition setImageDimensions (v : Dimensions) (st : State) : State :=
  {| student := student st; posts := posts st;
     placedImages := placedImages st; imageDimensions := v;
     totalPosts := totalPosts st; trendingHashtags := trendingHashtags st;
     loading := loading st; searchQuery := searchQuery st;
     uploadModalOpen := uploadModalOpen st;
     selectedImage := selectedImage st; imagePreview := imagePreview st;
     hashtags := hashtags st; hashtagInput := hashtagInput st;
     uploading := uploading st |}.

Definition setTotalPosts (v : number) (st : State) : State :=
  {| student := student st; posts := posts st;
     placedImages := placedImages st; imageDimensions := imageDimensions st;
     totalPosts := v; trendingHashtags := trendingHashtags st;
     loading := loading st; searchQuery := searchQuery st;
     uploadModalOpen := uploadModalOpen st;
     selectedImage := selectedImage st; imagePreview := imagePreview st;
     hashtags := hashtags st; hashtagInput := hashtagInput st;
     uploading := uploading st |}.

Definition setTrendingHashtags (v : list TrendingHashtag.t) (st : State) : State :=
  {| student := student st; posts := posts st;
     placedImages := placedImages st; imageDimensions := imageDimensions st;
     totalPosts := totalPosts st; trendingHashtags := v;
     loading := loading st; searchQuery := searchQuery st;
     uploadModalOpen := uploadModalOpen st;
     selectedImage := selectedImage st; imagePreview := imagePreview st;
     hashtags := hashtags st; hashtagInput := hashtagInput st;
     uploading := uploading st |}.

Definition setLoading (v : bool) (st : State) : State :=
  {| student := student st; posts := posts st;
     placedImages := placedImages st; imageDimensions := imageDimensions st;
     totalPosts := totalPosts st; trendingHashtags := trendingHashtags st;
     loading := v; searchQuery := searchQuery st;
     uploadModalOpen := uploadModalOpen st;
     selectedImage := selectedImage st; imagePreview := imagePreview st;
     hashtags := hashtags st; hashtagInput := hashtagInput st;
     uploading := uploading st |}.

Definition setSearchQuery (v : string) (st : State) : State :=
  {| student := student st; posts := posts st;
     placedImages := placedImages st; imageDimensions := imageDimensions st;
     totalPosts := totalPosts st; trendingHashtags := trendingHashtags st;
     loading := loading st; searchQuery := v;
     uploadModalOpen := uploadModalOpen st;
     selectedImage := selectedImage st; imagePreview := imagePreview st;
     hashtags := hashtags st; hashtagInput := hashtagInput st;
     uploading := uploading st |}.

Definition setUploadModalOpen (v : bool) (st : State) : State :=
  {| student := student st; posts := posts st;
     placedImages := placedImages st; imageDimensions := imageDimensions st;
     totalPosts := totalPosts st; trendingHashtags := trendingHashtags st;
     loading := loading st; searchQuery := searchQuery st;
     uploadModalOpen := v; selectedImage := selectedImage st;
     imagePreview := imagePreview st; hashtags := hashtags st;
     hashtagInput := hashtagInput st; uploading := uploading st |}.

Definition setSelectedImage (v : option File) (st : State) : State :=
  {| student := student st; posts := posts st;
     placedImages := placedImages st; imageDimensions := imageDimensions st;
     totalPosts := totalPosts st; trendingHashtags := trendingHashtags st;
     loading := loading st; searchQuery := searchQuery st;
     uploadModalOpen := uploadModalOpen st; selectedImage := v;
     imagePreview := imagePreview st; hashtags := hashtags st;
     hashtagInput := hashtagInput st; uploading := uploading st |}.

Definition setImagePreview (v : string) (st : State) : State :=
  {| student := student st; posts := posts st;
     placedImages := placedImages st; imageDimensions := imageDimensions st;
     totalPosts := totalPosts st; trendingHashtags := trendingHashtags st;
     loading := loading st; searchQuery := searchQuery st;
     uploadModalOpen := uploadModalOpen st;
     selectedImage := selectedImage st; imagePreview := v;
     hashtags := hashtags st; hashtagInput := hashtagInput st;
     uploading := uploading st |}.

Definition setHashtags (v : list string) (st : State) : State :=
  {| student := student st; posts := posts st;
     placedImages := placedImages st; imageDimensions := imageDimensions st;
     totalPosts := totalPosts st; trendingHashtags := trendingHashtags st;
     loading := loading st; searchQuery := searchQuery st;
     uploadModalOpen := uploadModalOpen st;
     selectedImage := selectedImage st; imagePreview := imagePreview st;
     hashtags := v; hashtagInput := hashtagInput st;
     uploading := uploading st |}.

Definition setHashtagInput (v : string) (st : State) : State :=
  {| student := student st; posts := posts st;
     placedImages := placedImages st; imageDimensions := imageDimensions st;
     totalPosts := totalPosts st; trendingHashtags := trendingHashtags st;
     loading := loading st; searchQuery := searchQuery st;
     uploadModalOpen := uploadModalOpen st;
     selectedImage := selectedImage st; imagePreview := imagePreview st;
     hashtags := hashtags st; hashtagInput := v; uploading := uploading st |}.

Definition setUploading (v : bool) (st : State) : State :=
  {| student := student st; posts := posts st;
     placedImages := placedImages st; imageDimensions := imageDimensions st;
     totalPosts := totalPosts st; trendingHashtags := trendingHashtags st;
     loading := loading st; searchQuery := searchQuery st;
     uploadModalOpen := uploadModalOpen st;
     selectedImage := selectedImage st; imagePreview := imagePreview st;
     hashtags := hashtags st; hashtagInput := hashtagInput st;
     uploading := v |}.

(** *** The hashtag list of the upload form *)

Definition addHashtag (tag : string) (st : State) : State :=
  let cleanTag := toLowerCase (replace_leading_hash (trim tag)) in
  if negb (is_empty cleanTag) && negb (includes (hashtags st) cleanTag)
  then setHashtagInput "" (setHashtags (hashtags st ++ [cleanTag]) st)
  else st.

Definition removeHashtag (tag : string) (st : State) : State :=
  setHashtags (filter (fun t => negb (String.eqb t tag)) (hashtags st)) st.

Definition handleTrendingClick (hashtag : string) (st : State) : State :=
  setSearchQuery hashtag st.

Inductive HashtagOp :=
| AddHashtag (tag : string)
| RemoveHashtag (tag : string).

Definition applyOp (st : State) (op : HashtagOp) : State :=
  match op with
  | AddHashtag tag => addHashtag tag st
  | RemoveHashtag tag => removeHashtag tag st
  end.

(** *** The outside world

    The asynchronous handlers talk to the three endpoints and to the
    functions imported from [@/lib/circular-placement].  Each such call is
    recorded in a log, and is answered by the world: it resolves to a value
    or it throws (a rejected promise, a body that is not JSON, an exception
    of the callee).  The answer may depend on the number of calls made so
    far, so that the same request can be answered differently later. *)

Inductive Call :=
| Fetch (r : Request)
| ReadJson (r : Response)
| PreloadImageDimensions (ps : list Post.t)
| PickRandomCenter (ps : list Post.t)
| CalculateCircularPlacement (ps : list Post.t) (center : Post.t) (d : Dimensions)
| ConsoleError (msg : string)
| Alert (msg : string).

Inductive outcome (A : Type) :=
| Resolves (a : A)
| Rejects (e : string).
Arguments Resolves {A} a.
Arguments Rejects {A} e.

Record World := mkWorld {
  network : nat -> Request -> outcome unit;
  body_of : nat -> Response -> outcome Body.t;
  dimensions_of : nat -> list Post.t -> outcome Dimensions;
  center_of : nat -> list Post.t -> outcome (option Post.t);
  placement_of :
    nat -> list Post.t -> Post.t -> Dimensions -> outcome (list PlacedImage.t)
}.

(** The page together with the log of the calls it has made. *)
Record Sys := mkSys { ui : State; calls : list Call }.

(** How a piece of code ends: normally with a value, or by throwing.  The
    updates queued before a throw are kept. *)
Inductive Completion (A : Type) :=
| Normal (a : A)
| Throw (e : string).
Arguments Normal {A} a.
Arguments Throw {A} e.

Definition M (A : Type) : Type := World -> Sys -> Completion A * Sys.

Definition ret {A} (a : A) : M A := fun _ s => (Normal a, s).

Definition bind {A B} (c : M A) (k : A -> M B) : M B :=
  fun w s =>
    match c w s with
    | (Normal a, s') => k a w s'
    | (Throw e, s') => (Throw e, s')
    end.

(** [try { c } catch (error) { h error }] *)
Definition try_catch {A} (c : M A) (h : string -> M A) : M A :=
  fun w s =>
    match c w s with
    | (Normal a, s') => (Normal a, s')
    | (Throw e, s') => h e w s'
    end.

(** [try { c } finally { f }] *)
Definition try_finally {A} (c : M A) (f : M unit) : M A :=
  fun w s =>
    match c w s with
    | (r, s') =>
        match f w s' with
        | (Normal _, s'') => (r, s'')
        | (Throw e, s'') => (Throw e, s'')
        end
    end.

Declare Scope js_scope.
Delimit Scope js_scope with js.
Notation "x <- c ;; k" := (bind c (fun x => k))
  (at level 61, c at next level, right associativity) : js_scope.
Notation "c ;; k" := (bind c (fun _ => k))
  (at level 61, right associativity) : js_scope.
Local Open Scope js_scope.

(** The state of the render in which the handler was created. *)
Definition render : M State := fun _ s => (Normal (ui s), s).

(** A [setX(v)] call. *)
Definition set (f : State -> State) : M unit :=
  fun _ s => (Normal tt, {| ui := f (ui s); calls := calls s |}).

(** A call to the outside: logged, then answered by the world. *)
Definition perform {A} (c : Call) (answer : World -> nat -> outcome A) : M A :=
  fun w s =>
    let s' := {| ui := ui s; calls := calls s ++ [c] |} in
    match answer w (List.length (calls s)) with
    | Resolves a => (Normal a, s')
    | Rejects e => (Throw e, s')
    end.

(** A call to the outside that returns nothing and does not throw. *)
Definition tell (c : Call) : M unit :=
  fun _ s => (Normal tt, {| ui := ui s; calls := calls s ++ [c] |}).

(** [await fetch(...)] *)
Definition fetch (r : Request) : M Response :=
  bind (perform (Fetch r) (fun w n => network w n r)) (fun _ => ret r).

(** [await response.json()] *)
Definition json (r : Response) : M Body.t :=
  perform (ReadJson r) (fun w n => body_of w n r).

Definition preloadImageDimensions (ps : list Post.t) : M Dimensions :=
  perform (PreloadImageDimensions ps) (fun w n => dimensions_of w n ps).

Definition pickRandomCenter (ps : list Post.t) : M (option Post.t) :=
  perform (PickRandomCenter ps) (fun w n => center_of w n ps).

Definition calculateCircularPlacement
    (ps : list Post.t) (center : Post.t) (d : Dimensions)
    : M (list PlacedImage.t) :=
  perform (CalculateCircularPlacement ps center d)
          (fun w n => placement_of w n ps center d).

Definition console_error (msg : string) : M unit := tell (ConsoleError msg).

Definition alert (msg : string) : M unit := tell (Alert msg).

(** *** The asynchronous handlers *)

Definition fetchPosts : M unit :=
  try_catch
    (set (setLoading true) ;;
     postsResponse <- fetch (GetPosts None) ;;
     postsData <- json postsResponse ;;
     (if Body.success postsData then
        let allPosts := Body.posts postsData in
        set (setPosts allPosts) ;;
        set (setTotalPosts (Body.total_count postsData)) ;;
        if (0 <? List.length allPosts)%nat then
          dimensions <- preloadImageDimensions allPosts ;;
          set (setImageDimensions dimensions) ;;
          center <- pickRandomCenter allPosts ;;
          match center with
          | Some c =>
              placed <- calculateCircularPlacement allPosts c dimensions ;;
              set (setPlacedImages placed)
          | None => ret tt
          end
        else ret tt
      else ret tt) ;;
     trendingResponse <- fetch GetTrending ;;
     trendingData <- json trendingResponse ;;
     (if Body.success trendingData
      then set (setTrendingHashtags (Body.trending trendingData))
      else ret tt) ;;
     set (setLoading false))
    (fun error =>
       console_error "Error fetching data:" ;;
       set (setLoading false)).

Definition handleUpload : M unit :=
  st <- render ;;
  match selectedImage st, student st with
  | Some image, Some who =>
      try_finally
        (try_catch
           (set (setUploading true) ;;
            let formData :=
              {| FormData.image := image;
                 FormData.hashtags := hashtags st;
                 FormData.posted_by := Student.full_name who |} in
            response <- fetch (PostUpload formData) ;;
            data <- json response ;;
            if Body.success data then
              set (setSelectedImage None) ;;
              set (setImagePreview "") ;;
              set (setHashtags []) ;;
              set (setUploadModalOpen false) ;;
              fetchPosts
            else
              alert ("Failed to upload image: " ++ Body.error data))
           (fun error =>
              console_error "Upload error:" ;;
              alert "Failed to upload image"))
        (set (setUploading false))
  | _, _ => ret tt
  end.

Definition handleSearch : M unit :=
  st <- render ;;
  if is_empty (trim (searchQuery st)) then fetchPosts
  else
    try_catch
      (response <- fetch (GetPosts (Some (searchQuery st))) ;;
       data <- json response ;;
       if Body.success data then
         let filteredPosts := Body.posts data in
         set (setPosts filteredPosts) ;;
         if (0 <? List.length filteredPosts)%nat then
           dimensions <- preloadImageDimensions filteredPosts ;;
           set (setImageDimensions dimensions) ;;
           center <- pickRandomCenter filteredPosts ;;
           match center with
           | Some c =>
               placed <-
                 calculateCircularPlacement filteredPosts c dimensions ;;
               set (setPlacedImages placed)
           | None => ret tt
           end
         else set (setPlacedImages [])
       else ret tt)
      (fun error => console_error "Search error:").

(** *** Vocabulary of the statements *)

(** The system a handler leaves behind. *)
Definition exec (c : M unit) (w : World) (s : Sys) : Sys := snd (c w s).

(** A page that has made no call yet. *)
Definition boot (st : State) : Sys := {| ui := st; calls := [] |}.

(** The calls logged between two systems, the second reached from the
    first. *)
Definition calls_since (before after : Sys) : list Call :=
  skipn (List.length (calls before)) (calls after).

Definition is_center_pick (c : Call) : bool :=
  match c with PickRandomCenter _ => true | _ => false end.

Definition is_placement (c : Call) : bool :=
  match c with CalculateCircularPlacement _ _ _ => true | _ => false end.

(** The world answers the request [r], sent when [n] calls have been made,
    with a response whose JSON body is [data]. *)
Definition answers (w : World) (n : nat) (r : Request) (data : Body.t) : Prop :=
  network w n r = Resolves tt /\ body_of w (S n) r = Resolves data.

(** A search query that names a hashtag: not blank once trimmed. *)
Definition names_hashtag (query : string) : bool :=
  negb (is_empty (trim query)).

(** The user types [query] in the search box and runs the search; and does
    so for each query of a list in turn. *)
Definition search (query : string) : M unit :=
  set (setSearchQuery query) ;; handleSearch.

Definition searches (queries : list string) (w : World) (s : Sys) : Sys :=
  fold_left (fun s query => exec (search query) w s) queries s.

Definition starts_with_hash (s : string) : bool :=
  match s with
  | String "#"%char _ => true
  | _ => false
  end.

(** A tag as the data model wants it: not empty, in lower case, and with no
    leading ['#']. *)
Definition clean_tag (t : string) : Prop :=
  t <> ""%string /\ toLowerCase t = t /\ starts_with_hash t = false.

(** The same without the clause on the leading ['#']. *)
Definition lower_tag (t : string) : Prop :=
  t <> ""%string /\ toLowerCase t = t.

(** The hashtag list after a sequence of additions and removals, starting
    from the empty list of the initial state. *)
Definition hashtags_after (ops : list HashtagOp) : list string :=
  hashtags (fold_left applyOp ops initial).

(** *** A world whose posts disappear

    Every request goes through.  A body read among the first seven calls
    holds one post; the bodies read later hold a successful, empty list.
    Dimensions, centre and placement are the simplest ones: the first post
    is the centre and every post is placed at the origin. *)

Definition post1 : Post.t :=
  Post.mk "p1" "/img/p1.png" "ann" ["cat"%string] "2024-01-01".

Definition place_at_origin (p : Post.t) : PlacedImage.t :=
  PlacedImage.mk p 0%Qc 0%Qc (Q2Qc 300) (Q2Qc 300).

Definition one_post : Body.t := Body.mk true [post1] 1%Qc [] "".

Definition no_post : Body.t := Body.mk true [] 0%Qc [] "".

Definition vanishing_posts : World :=
  {| network := fun _ _ => Resolves tt;
     body_of := fun n _ =>
       if (n <? 7)%nat then Resolves one_post else Resolves no_post;
     dimensions_of := fun _ ps =>
       Resolves
         (map (fun p => (Post.id p, ImageDimensions.mk (Q2Qc 300) (Q2Qc 300)))
              ps);
     center_of := fun _ ps => Resolves (hd_error ps);
     placement_of := fun _ ps _ _ => Resolves (map place_at_origin ps) |}.

(** *** More of the page *)

(** The suggestion button of a trending hashtag in the upload form:
    [disabled={hashtags.includes(item.hashtag)}], and its click,
    [addHashtag(item.hashtag)]. *)
Definition suggestionDisabled (st : State) (item : TrendingHashtag.t) : bool :=
  includes (hashtags st) (TrendingHashtag.hashtag item).

Definition clickSuggestion (item : TrendingHashtag.t) (st : State) : State :=
  addHashtag (TrendingHashtag.hashtag item) st.

Module Auth.
(** What the query [supabase.from('student_database').select('full_name')
    .eq('email', studentEmail).single()] resolves to: [{ data, error }],
    each of them possibly null. *)
Record Reply := mk { data : option Student.t; error : option string }.
End Auth.

(** What the authentication effect does besides setting the state. *)
Inductive AuthAction :=
| RouterPush (path : string)
| LogError (msg : string).

(** The first [useEffect] of the page: [studentEmail] is what
    [localStorage.getItem('studentEmail')] returns ([None] for null),
    [single] answers the query for an email. *)
Definition checkAuthentication
    (studentEmail : option string) (single : string -> Auth.Reply)
    (st : State) : State * list AuthAction :=
  match studentEmail with
  | None => (st, [RouterPush "/login"])
  | Some email =>
      if is_empty email then (st, [RouterPush "/login"])
      else
        let reply := single email in
        match Auth.error reply, Auth.data reply with
        | None, Some data => (setStudent (Some data) st, [])
        | _, _ =>
            (st, [LogError "Error fetching student:"; RouterPush "/login"])
        end
  end.

(** *** More vocabulary *)

Definition is_alert (c : Call) : bool :=
  match c with Alert _ => true | _ => false end.

Definition is_posts_request (c : Call) : bool :=
  match c with Fetch (GetPosts _) => true | _ => false end.

Definition is_trending_request (c : Call) : bool :=
  match c with Fetch GetTrending => true | _ => false end.

(** The body [handleUpload] sends for the state [st]. *)
Definition upload_form (st : State) (image : File) (who : Student.t)
    : FormData.t :=
  {| FormData.image := image;
     FormData.hashtags := hashtags st;
     FormData.posted_by := Student.full_name who |}.

(** Two states with the same student, search box and upload form. *)
Definition same_form (a b : State) : Prop :=
  student a = student b
  /\ searchQuery a = searchQuery b
  /\ uploadModalOpen a = uploadModalOpen b
  /\ selectedImage a = selectedImage b
  /\ imagePreview a = imagePreview b
  /\ hashtags a = hashtags b
  /\ hashtagInput a = hashtagInput b
  /\ uploading a = uploading b.

(** For the posts [ps], requested when [n] calls had been made, the world
    lets the three steps after the body go through and end in [placed]. *)
Definition placed_by (w : World) (n : nat) (ps : list Post.t)
    (dims : Dimensions) (placed : list PlacedImage.t) : Prop :=
  exists c : Post.t,
    dimensions_of w (2 + n) ps = Resolves dims
    /\ center_of w (3 + n) ps = Resolves (Some c)
    /\ placement_of w (4 + n) ps c dims = Resolves placed.

(** *** A world without network: every call throws. *)

Definition offline : World :=
  {| network := fun _ _ => Rejects "Failed to fetch";
     body_of := fun _ _ => Rejects "Unexpected end of JSON input";
     dimensions_of := fun _ _ => Rejects "preload";
     center_of := fun _ _ => Rejects "center";
     placement_of := fun _ _ _ _ => Rejects "placement" |}.

End Explore.

(** * Properties of the canvas *)

Module CanvasTheory.
Import JS Canvas.
Local Open Scope Qc_scope.

(** ** Order facts about [Math.min] and [Math.max] *)

Lemma Math_max_cases (a b : number) :
  (a < b /\ Math_max a b = b) \/ (b <= a /\ Math_max a b = a).
Proof.
  unfold Math_max. destruct (a ?= b) eqn:E.
  - right. apply Qceq_alt in E. subst. split; [apply Qcle_refl | reflexivity].
  - left. apply Qclt_alt in E. split; [exact E | reflexivity].
  - right. apply Qcgt_alt in E. split; [apply Qclt_le_weak; exact E | reflexivity].
Qed.

Lemma Math_min_cases (a b : number) :
  (b < a /\ Math_min a b = b) \/ (a <= b /\ Math_min a b = a).
Proof.
  unfold Math_min. destruct (a ?= b) eqn:E.
  - right. apply Qceq_alt in E. subst. split; [apply Qcle_refl | reflexivity].
  - right. apply Qclt_alt in E. split; [apply Qclt_le_weak; exact E | reflexivity].
  - left. apply Qcgt_alt in E. split; [exact E | reflexivity].
Qed.

Lemma bounds_ordered : Q2Qc 0.3 <= Q2Qc 3.
Proof. apply Qcle_alt. discriminate. Qed.

Lemma one_in_range : in_range 1.
Proof. split; apply Qcle_alt; discriminate. Qed.

Lemma initial_in_range : in_range (scale initial).
Proof. split; apply Qcle_alt; discriminate. Qed.

(** Whatever the argument, the two-sided bound of [handleWheel] lands in the
    allowed range. *)
Lemma min_max_in_range (v : number) :
  in_range (Math_min (Math_max (Q2Qc 0.3) v) (Q2Qc 3)).
Proof.
  unfold in_range.
  destruct (Math_min_cases (Math_max (Q2Qc 0.3) v) (Q2Qc 3)) as [[_ ->] | [Hle ->]].
  - split; [apply bounds_ordered | apply Qcle_refl].
  - split; [| exact Hle].
    destruct (Math_max_cases (Q2Qc 0.3) v) as [[Hlt ->] | [_ ->]].
    + apply Qclt_le_weak, Hlt.
    + apply Qcle_refl.
Qed.

(** The two-sided bound of the source is the [clamp] of the specification. *)
Lemma min_max_is_clamp (v : number) :
  Math_min (Math_max (Q2Qc 0.3) v) (Q2Qc 3) = clamp v (Q2Qc 0.3) (Q2Qc 3).
Proof.
  unfold clamp.
  destruct (v ?= Q2Qc 0.3) eqn:E1.
  - apply Qceq_alt in E1. subst v. reflexivity.
  - apply Qclt_alt in E1.
    destruct (Math_max_cases (Q2Qc 0.3) v) as [[Hlt _] | [_ ->]].
    + exfalso. exact (Qclt_not_le _ _ Hlt (Qclt_le_weak _ _ E1)).
    + reflexivity.
  - apply Qcgt_alt in E1.
    destruct (Math_max_cases (Q2Qc 0.3) v) as [[_ ->] | [Hle _]].
    + unfold Math_min.
      destruct (v ?= Q2Qc 3) eqn:E2.
      * apply Qceq_alt in E2. subst v. reflexivity.
      * apply Qclt_alt in E2.
        destruct (Q2Qc 3 ?= v) eqn:E3; try reflexivity.
        apply Qclt_alt in E3. exfalso.
        exact (Qclt_not_le _ _ E2 (Qclt_le_weak _ _ E3)).
      * assert (H : Q2Qc 3 < v) by (apply Qcgt_alt; exact E2).
        rewrite (proj1 (Qclt_alt (Q2Qc 3) v) H). reflexivity.
    + exfalso. exact (Qclt_not_le _ _ E1 Hle).
Qed.

Lemma handleWheel_scale (e : WheelEvent.t) (st : State) :
  scale (handleWheel e st)
  = Math_min (Math_max (Q2Qc 0.3)
                       (scale st + WheelEvent.deltaY e * Q2Qc (-0.001)))
             (Q2Qc 3).
Proof. reflexivity. Qed.

Lemma step_in_range (st : State) (ev : Event) :
  in_range (scale st) -> in_range (scale (step st ev)).
Proof.
  intros H. destruct ev as [e|e| | |e|e| |e| ]; cbn [step].
  - unfold handleMouseDown. destruct (negb _); exact H.
  - unfold handleMouseMove. destruct (negb _); exact H.
  - exact H.
  - exact H.
  - unfold handleTouchStart. destruct (TouchEvent.touches e) as [|t0 [|t1 ts]]; exact H.
  - unfold handleTouchMove.
    destruct (TouchEvent.touches e) as [|t0 [|t1 ts]]; try exact H.
    destruct (negb _); exact H.
  - exact H.
  - rewrite handleWheel_scale. apply min_max_in_range.
  - exact one_in_range.
Qed.

Lemma run_app (st : State) (l1 l2 : list Event) :
  run st (l1 ++ l2) = run (run st l1) l2.
Proof. apply fold_left_app. Qed.

Lemma run_in_range (evs : list Event) (st : State) :
  in_range (scale st) -> in_range (scale (run st evs)).
Proof.
  revert st. induction evs as [|ev evs IH]; intros st H; simpl.
  - exact H.
  - apply IH, step_in_range, H.
Qed.

(** X1.  Whatever events the canvas receives from its initial state (wheel
    events, drags, touches, resets, in any order), the scale stays between
    0.3 and 3. *)
Theorem every_event_keeps_scale_in_range :
  forall evs : list Event, in_range (scale (run initial evs)).
Proof. intros evs. apply run_in_range, initial_in_range. Qed.

(** Two wheel events on the initial canvas: scrolling up by 500 brings the
    scale from 0.3 to 0.8, scrolling down by 9000 stops at 0.3. *)
Example wheel_up_then_far_down :
  scale (run initial [OnWheel (WheelEvent.mk (Q2Qc (-500)))]) = Q2Qc 0.8
  /\ scale (run initial [OnWheel (WheelEvent.mk (Q2Qc (-500)));
                         OnWheel (WheelEvent.mk (Q2Qc 9000))]) = Q2Qc 0.3.
Proof. split; apply Qc_is_canon; reflexivity. Qed.

(** C1.  Along every sequence of wheel events applied to the initial
    canvas the scale stays between 0.3 and 3, and the next wheel event
    replaces the scale by [clamp (scale + (-0.001) * deltaY) 0.3 3]. *)
Theorem wheel_keeps_scale_in_range :
  forall (es : list WheelEvent.t),
    let st := run initial (map OnWheel es) in
    in_range (scale st) /\
    forall e : WheelEvent.t,
      scale (handleWheel e st)
      = clamp (scale st + Q2Qc (-0.001) * WheelEvent.deltaY e)
              (Q2Qc 0.3) (Q2Qc 3).
Proof.
  intros es st. split.
  - apply run_in_range, initial_in_range.
  - intros e. rewrite handleWheel_scale, min_max_is_clamp.
    f_equal. ring.
Qed.

(** ** Drags *)

(** A drag from (10, 20) to (15, 18) moves the pan by (5, -2); once the
    button is released a further move changes nothing. *)
Example drag_then_release :
  let down := OnMouseDown (MouseEvent.mk 0 (Q2Qc 10) (Q2Qc 20)) in
  let move := OnMouseMove (MouseEvent.mk 0 (Q2Qc 15) (Q2Qc 18)) in
  let away := OnMouseMove (MouseEvent.mk 0 (Q2Qc 90) (Q2Qc 90)) in
  pan (run initial [down; move]) = mkPoint (Q2Qc 5) (Q2Qc (-2))
  /\ run initial [down; move; OnMouseUp; away]
     = setIsDragging false (run initial [down; move]).
Proof.
  split.
  - cbn. f_equal; apply Qc_is_canon; reflexivity.
  - reflexivity.
Qed.

Lemma step_isDragging (st : State) (ev : Event) :
  isDragging (step st ev)
  = if begins_drag ev then true
    else if ends_drag ev then false
    else isDragging st.
Proof.
  destruct ev as [e|e| | |e|e| |e| ]; cbn [step begins_drag ends_drag];
    try reflexivity.
  - unfold handleMouseDown. destruct (MouseEvent.button e =? 0)%Z; reflexivity.
  - unfold handleMouseMove. destruct (negb (isDragging st)); reflexivity.
  - unfold handleTouchStart.
    destruct (TouchEvent.touches e) as [|t0 [|t1 ts]]; reflexivity.
  - unfold handleTouchMove.
    destruct (TouchEvent.touches e) as [|t0 [|t1 ts]]; try reflexivity.
    destruct (negb (isDragging st)); reflexivity.
Qed.

(** C6.  The reset action sets the pan to (0, 0) and the scale to the
    default 1, whatever the state it is invoked in. *)
Theorem reset_restores_default_view :
  forall st : State,
    pan (resetView st) = {| x := 0; y := 0 |} /\ scale (resetView st) = 1.
Proof. intros st. split; reflexivity. Qed.

(** C9.  The initial scale is 0.3, the reset action sets the scale to 1, and
    so a reset never gives back the initial scale. *)
Theorem reset_scale_differs_from_initial :
  scale initial = Q2Qc 0.3 /\
  forall st : State,
    scale (resetView st) = 1 /\
    scale (resetView st) <> scale initial /\
    resetView st <> initial.
Proof.
  split; [reflexivity |]. intros st.
  assert (Hne : scale (resetView st) <> scale initial) by (simpl; discriminate).
  repeat split; [exact Hne |].
  intros H. apply Hne. rewrite H. reflexivity.
Qed.

(** ** When the pan changes *)

Lemma step_pan_changed (st : State) (ev : Event) :
  pan (step st ev) <> pan st ->
  ev = OnClickReset \/ (is_move ev = true /\ isDragging st = true).
Proof.
  destruct ev as [e|e| | |e|e| |e| ]; cbn [step is_move]; intros H;
    try (exfalso; apply H; reflexivity).
  - exfalso. apply H. unfold handleMouseDown.
    destruct (negb (MouseEvent.button e =? 0)%Z); reflexivity.
  - right. split; [reflexivity |]. unfold handleMouseMove in H.
    destruct (isDragging st); [reflexivity |].
    exfalso. apply H. reflexivity.
  - exfalso. apply H. unfold handleTouchStart.
    destruct (TouchEvent.touches e) as [|t0 [|t1 ts]]; reflexivity.
  - right. split; [reflexivity |]. unfold handleTouchMove in H.
    destruct (isDragging st); [reflexivity |].
    exfalso. apply H.
    destruct (TouchEvent.touches e) as [|t0 [|t1 ts]]; reflexivity.
  - left. reflexivity.
Qed.

(** In a run from the initial state the canvas is dragging exactly when a
    pointer-down is followed by no pointer-up or leave. *)
Lemma dragging_within_drag (evs : list Event) :
  isDragging (run initial evs) = true -> within_drag evs.
Proof.
  induction evs as [|ev evs IH] using rev_ind; intros H.
  - discriminate H.
  - rewrite run_app in H. cbn [run fold_left] in H.
    rewrite step_isDragging in H.
    destruct (begins_drag ev) eqn:Hb.
    + exists evs, ev, []. repeat split; [exact Hb].
    + destruct (ends_drag ev) eqn:He; [discriminate H |].
      destruct (IH H) as (before & d & after & Heq & Hd & Hafter).
      exists before, d, (after ++ [ev]). repeat split.
      * rewrite Heq, <- app_assoc. reflexivity.
      * exact Hd.
      * rewrite forallb_app, Hafter. simpl. rewrite He. reflexivity.
Qed.

(** A drag under way is a pointer that is down. *)
Lemma within_drag_pointer_is_down (evs : list Event) :
  within_drag evs -> pointer_is_down evs.
Proof.
  intros (before & d & after & Heq & Hd & Hafter).
  exists before, d, after. repeat split; try assumption.
  destruct d; try discriminate Hd; reflexivity.
Qed.

(** C7, as the code has it.  A mouse-up or a mouse-leave ends the drag; a
    mouse-move outside a drag leaves the pan as it is; and in a run from the
    initial state a step changes the pan only when it is the reset action,
    or a move between a pointer-down and the next pointer-up or leave. *)
Theorem pan_changes_within_drag_or_by_reset :
  (forall st : State,
      isDragging (handleMouseUp st) = false
      /\ isDragging (handleMouseLeave st) = false) /\
  (forall (st : State) (e : MouseEvent.t),
      isDragging st = false -> pan (handleMouseMove e st) = pan st) /\
  (forall (evs : list Event) (ev : Event),
      pan (step (run initial evs) ev) <> pan (run initial evs) ->
      ev = OnClickReset \/ (is_move ev = true /\ within_drag evs)).
Proof.
  split; [| split].
  - intros st. split; reflexivity.
  - intros st e H. unfold handleMouseMove. rewrite H. reflexivity.
  - intros evs ev H.
    destruct (step_pan_changed _ _ H) as [-> | [Hm Hd]].
    + left. reflexivity.
    + right. split; [exact Hm | apply dragging_within_drag, Hd].
Qed.

Lemma pan_changes_within_drag_or_by_reset_witness :
  pan (handleMouseMove (MouseEvent.mk 0 (Q2Qc 7) (Q2Qc 9)) initial)
  = pan initial
  /\ (OnMouseMove (MouseEvent.mk 0 (Q2Qc 7) (Q2Qc 9)) = OnClickReset
      \/ (is_move (OnMouseMove (MouseEvent.mk 0 (Q2Qc 7) (Q2Qc 9))) = true
          /\ within_drag [OnMouseDown (MouseEvent.mk 0 (Q2Qc 1) (Q2Qc 1))])).
Proof.
  destruct pan_changes_within_drag_or_by_reset as (_ & Hmove & Hchange).
  split.
  - apply Hmove. reflexivity.
  - apply (Hchange [OnMouseDown (MouseEvent.mk 0 (Q2Qc 1) (Q2Qc 1))]
                   (OnMouseMove (MouseEvent.mk 0 (Q2Qc 7) (Q2Qc 9)))).
    intros E. apply (f_equal (fun p => this (x p))) in E.
    vm_compute in E. discriminate E.
Defined.

(** The wording of the claim fails.  A drag moves the pan and a mouse-up
    ends it; the reset button is then pressed and released (the container
    hears both) and its click runs the reset action, which changes the pan
    outside any drag. *)
Lemma reset_changes_pan_outside_drag : ~ pan_changes_only_within_drag.
Proof.
  intros H.
  destruct (H [OnMouseDown (MouseEvent.mk 0 (Q2Qc 0) (Q2Qc 0));
               OnMouseMove (MouseEvent.mk 0 (Q2Qc 5) (Q2Qc 7));
               OnMouseUp;
               OnMouseDown (MouseEvent.mk 0 (Q2Qc 400) (Q2Qc 580));
               OnMouseUp]
              OnClickReset)
    as (before & d & after & Heq & Hd & Hafter).
  - intros E. apply (f_equal (fun p => this (x p))) in E.
    vm_compute in E. discriminate E.
  - destruct before as [|b0 [|b1 [|b2 [|b3 [|b4 [|b5 before]]]]]];
      simpl in Heq; inversion Heq; subst; simpl in Hd, Hafter;
      discriminate.
Qed.

(** ** Touch input *)

(** C8.  A touch-start with exactly one touch begins a drag by the formula
    of the mouse-down (the anchor is the touch position minus the pan, and a
    single-touch move during the drag sets the pan to the touch position
    minus the anchor, as a mouse-move at the same position does); a
    touch-start or a touch-move whose number of touches is not one changes
    neither the dragging flag nor the pan. *)
Theorem single_touch_drags_like_mouse :
  forall st : State,
    (forall t0 : Touch.t,
        let e := TouchEvent.mk [t0] in
        let m := MouseEvent.mk 0 (Touch.clientX t0) (Touch.clientY t0) in
        isDragging (handleTouchStart e st) = true
        /\ dragStart (handleTouchStart e st) = psub (touchPoint t0) (pan st)
        /\ handleTouchStart e st = handleMouseDown m st
        /\ handleTouchMove e st = handleMouseMove m st
        /\ (isDragging st = true ->
            pan (handleTouchMove e st) = psub (touchPoint t0) (dragStart st)))
    /\ (forall e : TouchEvent.t,
           List.length (TouchEvent.touches e) <> 1%nat ->
           isDragging (handleTouchStart e st) = isDragging st
           /\ pan (handleTouchStart e st) = pan st
           /\ isDragging (handleTouchMove e st) = isDragging st
           /\ pan (handleTouchMove e st) = pan st).
Proof.
  intros st. split.
  - intros t0 e m.
    split; [reflexivity |]. split; [reflexivity |].
    split; [reflexivity |]. split; [reflexivity |].
    intros H. unfold handleTouchMove, e. cbn [TouchEvent.touches].
    rewrite H. reflexivity.
  - intros e H. unfold handleTouchStart, handleTouchMove.
    destruct (TouchEvent.touches e) as [|t0 [|t1 ts]];
      [| exfalso; apply H; reflexivity |]; repeat split; reflexivity.
Qed.

Lemma single_touch_drags_like_mouse_witness :
  pan (handleTouchMove
         (TouchEvent.mk [Touch.mk (Q2Qc 30) (Q2Qc 40)])
         (handleTouchStart (TouchEvent.mk [Touch.mk (Q2Qc 10) (Q2Qc 20)])
                           initial))
  = psub (touchPoint (Touch.mk (Q2Qc 30) (Q2Qc 40)))
         (psub (touchPoint (Touch.mk (Q2Qc 10) (Q2Qc 20))) (pan initial))
  /\ pan (handleTouchMove
            (TouchEvent.mk [Touch.mk (Q2Qc 1) (Q2Qc 2);
                            Touch.mk (Q2Qc 3) (Q2Qc 4)])
            initial)
     = pan initial.
Proof.
  split.
  - destruct (single_touch_drags_like_mouse
                (handleTouchStart
                   (TouchEvent.mk [Touch.mk (Q2Qc 10) (Q2Qc 20)]) initial))
      as [Hone _].
    destruct (Hone (Touch.mk (Q2Qc 30) (Q2Qc 40))) as (_ & _ & _ & _ & Hmove).
    apply Hmove. reflexivity.
  - destruct (single_touch_drags_like_mouse initial) as [_ Hmany].
    apply (Hmany (TouchEvent.mk [Touch.mk (Q2Qc 1) (Q2Qc 2);
                                 Touch.mk (Q2Qc 3) (Q2Qc 4)])).
    simpl. discriminate.
Defined.

(** ** Pan and zoom do not interfere *)

Lemma step_scale_other (st : State) (ev : Event) :
  sets_scale ev = false -> scale (step st ev) = scale st.
Proof.
  destruct ev as [e|e| | |e|e| |e| ]; cbn [step sets_scale]; intros H;
    try discriminate H; try reflexivity.
  - unfold handleMouseDown. destruct (negb _); reflexivity.
  - unfold handleMouseMove. destruct (negb _); reflexivity.
  - unfold handleTouchStart.
    destruct (TouchEvent.touches e) as [|t0 [|t1 ts]]; reflexivity.
  - unfold handleTouchMove.
    destruct (TouchEvent.touches e) as [|t0 [|t1 ts]]; try reflexivity.
    destruct (negb _); reflexivity.
Qed.

Lemma step_scale_only (st st' : State) (ev : Event) :
  sets_scale ev = true -> scale st = scale st' ->
  scale (step st ev) = scale (step st' ev).
Proof.
  destruct ev as [e|e| | |e|e| |e| ]; cbn [step sets_scale]; intros H E;
    try discriminate H.
  - rewrite !handleWheel_scale, E. reflexivity.
  - reflexivity.
Qed.

Lemma run_scale_filter (evs : list Event) (st st' : State) :
  scale st = scale st' ->
  scale (run st evs) = scale (run st' (filter sets_scale evs)).
Proof.
  revert st st'. induction evs as [|ev evs IH]; intros st st' E; simpl.
  - exact E.
  - destruct (sets_scale ev) eqn:Hev; simpl.
    + apply IH, step_scale_only; assumption.
    + apply IH. rewrite step_scale_other; assumption.
Qed.

(** Two states that hold the same pan, dragging flag and anchor. *)
Definition same_drag (st st' : State) : Prop :=
  pan st = pan st' /\ isDragging st = isDragging st'
  /\ dragStart st = dragStart st'.

Lemma step_same_drag (st st' : State) (ev : Event) :
  same_drag st st' ->
  same_drag (step st ev) (if is_wheel ev then st' else step st' ev).
Proof.
  intros (Hp & Hd & Ha). unfold same_drag.
  destruct ev as [e|e| | |e|e| |e| ]; cbn [step is_wheel].
  - unfold handleMouseDown. destruct (negb _); cbn; rewrite ?Hp; auto.
  - unfold handleMouseMove. rewrite Hd.
    destruct (negb _); cbn; rewrite ?Ha; auto.
  - cbn. auto.
  - cbn. auto.
  - unfold handleTouchStart.
    destruct (TouchEvent.touches e) as [|t0 [|t1 ts]]; cbn; rewrite ?Hp; auto.
  - unfold handleTouchMove. rewrite Hd.
    destruct (TouchEvent.touches e) as [|t0 [|t1 ts]]; auto.
    destruct (negb _); cbn; rewrite ?Ha; auto.
  - cbn. auto.
  - cbn. auto.
  - cbn. auto.
Qed.

Lemma run_same_drag (evs : list Event) (st st' : State) :
  same_drag st st' ->
  same_drag (run st evs)
            (run st' (filter (fun ev => negb (is_wheel ev)) evs)).
Proof.
  revert st st'. induction evs as [|ev evs IH]; intros st st' E; simpl.
  - exact E.
  - pose proof (step_same_drag st st' ev E) as E'.
    destruct (is_wheel ev); simpl; apply IH, E'.
Qed.

(** X9.  Zooming and panning do not interfere: the scale reached by a run
    is the one reached by its wheel events and reset clicks alone, and the
    pan, the dragging flag and the anchor are the ones reached by the run
    without its wheel events. *)
Theorem pan_and_zoom_independent :
  forall (st : State) (evs : list Event),
    let zooms := filter sets_scale evs in
    let others := filter (fun ev => negb (is_wheel ev)) evs in
    scale (run st evs) = scale (run st zooms)
    /\ pan (run st evs) = pan (run st others)
    /\ isDragging (run st evs) = isDragging (run st others)
    /\ dragStart (run st evs) = dragStart (run st others).
Proof.
  intros st evs zooms others. split.
  - apply run_scale_filter. reflexivity.
  - apply (run_same_drag evs st st). repeat split; reflexivity.
Qed.

(** ** The direction of wheel events *)

Lemma delta_sign (d : Qc) :
  (d <= 0 -> 0 <= d * Q2Qc (-0.001))
  /\ (0 <= d -> d * Q2Qc (-0.001) <= 0).
Proof.
  assert (Hc : (0 : Qc) <= Q2Qc 0.001) by (apply Qcle_alt; discriminate).
  assert (E : d * Q2Qc (-0.001) = - d * Q2Qc 0.001).
  { assert (En : Q2Qc (-0.001) = - Q2Qc 0.001)
      by (apply Qc_is_canon; reflexivity).
    rewrite En. ring. }
  rewrite E. split; intros H.
  - apply Qcopp_le_compat in H.
    replace (- 0) with (0 : Qc) in H by (apply Qc_is_canon; reflexivity).
    pose proof (Qcmult_le_compat_r _ _ _ H Hc) as H'.
    rewrite Qcmult_0_l in H'. exact H'.
  - apply Qcopp_le_compat in H.
    replace (- 0) with (0 : Qc) in H by (apply Qc_is_canon; reflexivity).
    pose proof (Qcmult_le_compat_r _ _ _ H Hc) as H'.
    rewrite Qcmult_0_l in H'. exact H'.
Qed.

Lemma Math_min_glb (a b c : number) : c <= a -> c <= b -> c <= Math_min a b.
Proof.
  intros Ha Hb. destruct (Math_min_cases a b) as [[_ ->] | [_ ->]]; assumption.
Qed.

Lemma Math_min_le_l (a b : number) : Math_min a b <= a.
Proof.
  destruct (Math_min_cases a b) as [[H ->] | [_ ->]];
    [apply Qclt_le_weak, H | apply Qcle_refl].
Qed.

Lemma Math_max_ge_r (a b : number) : b <= Math_max a b.
Proof.
  destruct (Math_max_cases a b) as [[_ ->] | [H ->]];
    [apply Qcle_refl | exact H].
Qed.

Lemma Math_max_lub (a b c : number) : a <= c -> b <= c -> Math_max a b <= c.
Proof.
  intros Ha Hb. destruct (Math_max_cases a b) as [[_ ->] | [_ ->]]; assumption.
Qed.

(** X12.  With the scale in its range, a wheel event with a negative
    [deltaY] (scrolling up) never lowers the scale and one with a positive
    [deltaY] never raises it. *)
Theorem wheel_follows_scroll_direction :
  forall (st : State) (e : WheelEvent.t),
    in_range (scale st) ->
    (WheelEvent.deltaY e <= 0 -> scale st <= scale (handleWheel e st))
    /\ (0 <= WheelEvent.deltaY e -> scale (handleWheel e st) <= scale st).
Proof.
  intros st e [Hlo Hhi]. rewrite handleWheel_scale.
  destruct (delta_sign (WheelEvent.deltaY e)) as [Hup Hdown].
  split; intros H.
  - specialize (Hup H).
    assert (Hv : scale st <= scale st + WheelEvent.deltaY e * Q2Qc (-0.001)).
    { pose proof (Qcplus_le_compat _ _ _ _ (Qcle_refl (scale st)) Hup) as H'.
      rewrite Qcplus_0_r in H'. exact H'. }
    apply Math_min_glb; [| exact Hhi].
    eapply Qcle_trans; [exact Hv | apply Math_max_ge_r].
  - specialize (Hdown H).
    assert (Hv : scale st + WheelEvent.deltaY e * Q2Qc (-0.001) <= scale st).
    { pose proof (Qcplus_le_compat _ _ _ _ (Qcle_refl (scale st)) Hdown) as H'.
      rewrite Qcplus_0_r in H'. exact H'. }
    eapply Qcle_trans; [apply Math_min_le_l |].
    apply Math_max_lub; assumption.
Qed.

Lemma wheel_follows_scroll_direction_witness :
  scale initial
  <= scale (handleWheel (WheelEvent.mk (Q2Qc (-250))) initial).
Proof.
  apply (wheel_follows_scroll_direction initial (WheelEvent.mk (Q2Qc (-250)))).
  - apply initial_in_range.
  - apply Qcle_alt. discriminate.
Defined.

(** ** What the view shows *)

Lemma run_stays_dragging (evs : list Event) (st : State) :
  forallb (fun ev => negb (ends_drag ev)) evs = true ->
  isDragging st = true -> isDragging (run st evs) = true.
Proof.
  revert st. induction evs as [|ev evs IH]; intros st H Hd; simpl in *.
  - exact Hd.
  - apply andb_true_iff in H. destruct H as [He Hevs].
    apply negb_true_iff in He.
    apply IH; [exact Hevs |].
    rewrite step_isDragging, He, Hd. destruct (begins_drag ev); reflexivity.
Qed.

(** X15.  The canvas shows the grabbing cursor exactly when a drag is under
    way: a left-button mouse-down or a single-touch start has occurred and
    no mouse-up, mouse-leave or touch-end has followed it. *)
Theorem cursor_grabbing_iff_within_drag :
  forall evs : list Event,
    cursor (run initial evs) = "grabbing"%string <-> within_drag evs.
Proof.
  intros evs. unfold cursor. split.
  - intros H. apply dragging_within_drag.
    destruct (isDragging (run initial evs)); [reflexivity | discriminate H].
  - intros (before & d & after & -> & Hd & Hafter).
    rewrite run_app.
    change (run (run initial before) (d :: after))
      with (run (step (run initial before) d) after).
    rewrite (run_stays_dragging after _ Hafter); [reflexivity |].
    rewrite step_isDragging, Hd. reflexivity.
Qed.

End CanvasTheory.

(** * The zoom bound on doubles *)

Module DoubleTheory.
Import Double.
Local Open Scope Z_scope.

(** Rounding a mantissa that is not negative never gives [NaN]. *)

Lemma shr_1_nonneg (mrs : shr_record) :
  0 <= shr_m mrs -> 0 <= shr_m (shr_1 mrs).
Proof.
  destruct mrs as [m r s]. cbn [shr_m]. intros H. unfold shr_1.
  destruct m as [|[p|p|]|p]; cbn [shr_m]; lia.
Qed.

Lemma iter_pos_invariant {A : Type} (P : A -> Prop) (f : A -> A) :
  (forall a, P a -> P (f a)) ->
  forall (n : positive) (a : A), P a -> P (iter_pos f n a).
Proof.
  intros Hf. induction n as [n IH | n IH |]; intros a Ha; simpl.
  - apply IH, IH, Hf, Ha.
  - apply IH, IH, Ha.
  - apply Hf, Ha.
Qed.

Lemma shr_nonneg (mrs : shr_record) (e n : Z) :
  0 <= shr_m mrs -> 0 <= shr_m (fst (shr mrs e n)).
Proof.
  intros H. unfold shr. destruct n as [|p|p]; simpl; try exact H.
  apply (iter_pos_invariant (fun r => 0 <= shr_m r)); [apply shr_1_nonneg | exact H].
Qed.

Lemma shr_record_of_loc_m (m : Z) (l : location) :
  shr_m (shr_record_of_loc m l) = m.
Proof. destruct l as [|[]]; reflexivity. Qed.

Lemma shr_fexp_nonneg (m e : Z) (l : location) :
  0 <= m -> 0 <= shr_m (fst (shr_fexp prec emax m e l)).
Proof.
  intros H. unfold shr_fexp. apply shr_nonneg.
  rewrite shr_record_of_loc_m. exact H.
Qed.

Lemma round_nearest_even_nonneg (m : Z) (l : location) :
  0 <= m -> 0 <= round_nearest_even m l.
Proof.
  intros H. destruct l as [|[]]; simpl; try lia.
  destruct (Z.even m); lia.
Qed.

Lemma binary_round_aux_not_nan (s : bool) (m e : Z) (l : location) :
  0 <= m -> isNaN (binary_round_aux prec emax s m e l) = false.
Proof.
  intros H. unfold binary_round_aux.
  pose proof (shr_fexp_nonneg m e l H) as H1.
  destruct (shr_fexp prec emax m e l) as [mrs' e'] eqn:E1. simpl in H1.
  pose proof (shr_fexp_nonneg _ e' loc_Exact
                (round_nearest_even_nonneg _ (loc_of_shr_record mrs') H1)) as H2.
  destruct (shr_fexp prec emax _ e' loc_Exact) as [mrs'' e''] eqn:E2.
  simpl in H2.
  destruct (shr_m mrs'') as [|p|p]; try reflexivity.
  - destruct (e'' <=? emax - prec); reflexivity.
  - lia.
Qed.

Lemma binary_normalize_not_nan (m e : Z) (sz : bool) :
  isNaN (binary_normalize prec emax m e sz) = false.
Proof.
  unfold binary_normalize, binary_round.
  destruct m as [|p|p]; try reflexivity.
  - destruct (shl_align p e _) as [mz ez]. apply binary_round_aux_not_nan. lia.
  - destruct (shl_align p e _) as [mz ez]. apply binary_round_aux_not_nan. lia.
Qed.

Lemma mul_finite_not_nan (d : double) (s : bool) (m : positive) (e : Z) :
  isNaN d = false -> isNaN (mul d (S754_finite s m e)) = false.
Proof.
  destruct d as [sd | sd | | sd md ed]; intros H; try reflexivity.
  - discriminate H.
  - unfold mul, SFmul. apply binary_round_aux_not_nan. lia.
Qed.

Lemma add_finite_not_nan (s : bool) (m : positive) (e : Z) (d : double) :
  isNaN d = false -> isNaN (add (S754_finite s m e) d) = false.
Proof.
  destruct d as [sd | sd | | sd md ed]; intros H; try reflexivity.
  - discriminate H.
  - unfold add, SFadd. apply binary_normalize_not_nan.
Qed.

Lemma in_range_finite (d : double) :
  in_range d = true -> exists m e, d = S754_finite false m e.
Proof.
  unfold in_range. intros H. apply andb_true_iff in H. destruct H as [H1 H2].
  destruct d as [sd | [|] | | [|] md ed]; try discriminate.
  exists md, ed. reflexivity.
Qed.

Lemma compare_not_nan (a b : double) :
  isNaN a = false -> isNaN b = false -> exists c, SFcompare a b = Some c.
Proof.
  destruct a as [sa | sa | | sa ma ea]; destruct b as [sb | sb | | sb mb eb];
    intros Ha Hb; try discriminate; simpl; eexists; reflexivity.
Qed.

Lemma clamp_in_range (v : double) :
  isNaN v = false -> in_range (Math_min (Math_max lit_0_3 v) lit_3) = true.
Proof.
  intros Hv.
  destruct (compare_not_nan lit_0_3 v eq_refl Hv) as [c Hc].
  assert (Hmax : isNaN (Math_max lit_0_3 v) = false
                 /\ SFleb lit_0_3 (Math_max lit_0_3 v) = true).
  { unfold Math_max. rewrite Hc. destruct c.
    - split; reflexivity.
    - split; [exact Hv |]. unfold SFleb. rewrite Hc. reflexivity.
    - split; reflexivity. }
  destruct Hmax as [Hn Hlo].
  set (u := Math_max lit_0_3 v) in *.
  destruct (compare_not_nan u lit_3 Hn eq_refl) as [c' Hc'].
  unfold Math_min. rewrite Hc'. unfold in_range. destruct c'.
  - destruct u as [[|] | | |]; try (rewrite Hlo; unfold SFleb; rewrite Hc'; reflexivity).
    reflexivity.
  - rewrite Hlo. unfold SFleb. rewrite Hc'. reflexivity.
  - reflexivity.
Qed.

Lemma newScale_in_range (scale deltaY : double) :
  in_range scale = true ->
  isNaN deltaY = false ->
  in_range (newScale scale deltaY) = true.
Proof.
  intros Hs Hd. unfold newScale.
  apply clamp_in_range.
  destruct (in_range_finite scale Hs) as (m & e & ->).
  apply add_finite_not_nan.
  apply (mul_finite_not_nan deltaY true 4611686018427388 (-62) Hd).
Qed.

(** X7.  On IEEE-754 doubles: along every sequence of wheel events whose
    [deltaY] is not [NaN] (it may be infinite), the scale computed by
    [handleWheel] from the initial 0.3 stays between 0.3 and 3, whatever is
    rounded, overflows or underflows on the way. *)
Theorem double_wheel_in_range :
  forall deltas : list double,
    forallb (fun d => negb (isNaN d)) deltas = true ->
    in_range (scale_after deltas) = true.
Proof.
  intros deltas. unfold scale_after.
  assert (H0 : in_range lit_0_3 = true) by reflexivity.
  revert H0. generalize lit_0_3 as scale.
  induction deltas as [|d deltas IH]; intros scale Hs Hd; simpl in *.
  - exact Hs.
  - apply andb_true_iff in Hd. destruct Hd as [Hd Hds].
    apply negb_true_iff in Hd.
    apply IH; [apply newScale_in_range; assumption | exact Hds].
Qed.

Lemma double_wheel_in_range_witness :
  in_range (scale_after [of_Z (-500); S754_infinity false; of_Z 120]) = true.
Proof. apply double_wheel_in_range. reflexivity. Defined.

(** Scrolling up by 500 from 0.3 gives the double nearest to 0.8. *)
Example double_wheel_up :
  newScale lit_0_3 (of_Z (-500)) = div (of_Z 8) (of_Z 10).
Proof. vm_compute. reflexivity. Qed.

(** A [deltaY] that is [NaN] would make the scale [NaN]. *)
Example double_wheel_nan : newScale lit_0_3 S754_nan = S754_nan.
Proof. reflexivity. Qed.

(** Wheel events do not add up: scrolling up by 100 and down by 100 from
    0.3 gives [0.30000000000000004], the double after 0.3. *)
Example double_wheel_there_and_back :
  lit_0_3 = S754_finite false 5404319552844595 (-54)
  /\ newScale (newScale lit_0_3 (of_Z (-100))) (of_Z 100)
     = S754_finite false 5404319552844596 (-54).
Proof. vm_compute. split; reflexivity. Qed.

(** ** Integers

    Sums and differences of integers are computed exactly, as long as
    operands and result are safe integers. *)

Lemma shl_S (p : positive) (k : nat) : shl p (S k) = xO (shl p k).
Proof. reflexivity. Qed.

Lemma shl_add (p : positive) (j k : nat) : shl (shl p j) k = shl p (j + k).
Proof.
  unfold shl. rewrite Nat.add_comm. symmetry. apply Nat.iter_add.
Qed.

Lemma digits_shl (p : positive) (k : nat) :
  Zpos (digits2_pos (shl p k)) = Zpos (digits2_pos p) + Z.of_nat k.
Proof.
  induction k as [|k IH].
  - simpl. lia.
  - rewrite shl_S. cbn [digits2_pos]. rewrite Pos2Z.inj_succ, IH. lia.
Qed.

Lemma Zpos_shl (p : positive) (k : nat) :
  Zpos (shl p k) = Zpos p * 2 ^ Z.of_nat k.
Proof.
  induction k as [|k IH].
  - simpl. lia.
  - rewrite shl_S, Pos2Z.inj_xO, IH, Nat2Z.inj_succ, Z.pow_succ_r by lia. lia.
Qed.

Lemma Pos_iter_xO (p d : positive) : Pos.iter xO p d = shl p (Pos.to_nat d).
Proof. unfold shl. apply Pos2Nat.inj_iter. Qed.

Lemma iter_pos_nat {A : Type} (f : A -> A) (n : positive) (a : A) :
  iter_pos f n a = Nat.iter (Pos.to_nat n) f a.
Proof.
  revert a. induction n as [n IH | n IH |]; intros a; simpl iter_pos.
  - rewrite !IH, Pos2Nat.inj_xI, <- Nat.iter_add, <- Nat.iter_succ_r.
    f_equal. lia.
  - rewrite !IH, Pos2Nat.inj_xO, <- Nat.iter_add. f_equal. lia.
  - reflexivity.
Qed.

Lemma shr_zeros (p : positive) (k : nat) :
  Nat.iter k shr_1 (Build_shr_record (Zpos (shl p k)) false false)
  = Build_shr_record (Zpos p) false false.
Proof.
  induction k as [|k IH]; [reflexivity |].
  rewrite Nat.iter_succ_r, shl_S. cbn [shr_1 orb]. exact IH.
Qed.

(** A mantissa of 53 bits at an exponent in range is a double as it is. *)
Lemma round_aux_canonical (s : bool) (m : positive) (e : Z) :
  Zpos (digits2_pos m) = 53 -> -1074 <= e <= 971 ->
  binary_round_aux prec emax s (Zpos m) e loc_Exact = S754_finite s m e.
Proof.
  intros Hd He.
  assert (Hs : shr_fexp prec emax (Zpos m) e loc_Exact
               = (Build_shr_record (Zpos m) false false, e)).
  { unfold shr_fexp, fexp, emin, prec, emax. cbn [Zdigits2 shr_record_of_loc].
    rewrite Hd.
    replace (Z.max (53 + e - 53) (3 - 1024 - 53) - e) with 0 by lia.
    reflexivity. }
  unfold binary_round_aux. rewrite Hs.
  cbn [shr_m loc_of_shr_record round_nearest_even]. rewrite Hs.
  cbn [shr_m]. unfold emax, prec.
  destruct (e <=? 1024 - 53) eqn:E; [reflexivity | lia].
Qed.

(** The double of the integer [c * 2 ^ k] given at the exponent [- k]:
    the mantissa is [c] brought to 53 bits. *)
Lemma binary_round_shl (s : bool) (c : positive) (k : nat) :
  Zpos (digits2_pos c) <= 53 ->
  binary_round prec emax s (shl c k) (- Z.of_nat k)
  = S754_finite s (shl c (Z.to_nat (53 - Zpos (digits2_pos c))))
                  (Zpos (digits2_pos c) - 53).
Proof.
  intros Hc. set (d := Zpos (digits2_pos c)) in *.
  assert (Hd1 : 1 <= d) by (unfold d; lia).
  unfold binary_round, shl_align.
  rewrite digits_shl. fold d.
  assert (Hf : fexp prec emax (d + Z.of_nat k + - Z.of_nat k) = d - 53).
  { unfold fexp, emin, prec, emax. lia. }
  rewrite Hf.
  destruct (d - 53 - - Z.of_nat k) as [|q|q] eqn:Hq.
  - (* already aligned *)
    replace (Z.to_nat (53 - d)) with k by lia.
    replace (d - 53) with (- Z.of_nat k) by lia.
    apply round_aux_canonical.
    + rewrite digits_shl. fold d. lia.
    + lia.
  - (* too many zeros: the rounding shifts them out *)
    assert (Hk : k = (Z.to_nat (53 - d) + Pos.to_nat q)%nat) by lia.
    assert (Hs : shr_fexp prec emax (Zpos (shl c k)) (- Z.of_nat k) loc_Exact
                 = (Build_shr_record
                      (Zpos (shl c (Z.to_nat (53 - d)))) false false,
                    d - 53)).
    { unfold shr_fexp. cbn [Zdigits2 shr_record_of_loc].
      rewrite digits_shl. fold d. rewrite Hf.
      rewrite Hq. unfold shr. rewrite iter_pos_nat.
      rewrite Hk at 1. rewrite <- shl_add, shr_zeros.
      f_equal. lia. }
    assert (Hs' : shr_fexp prec emax (Zpos (shl c (Z.to_nat (53 - d))))
                    (d - 53) loc_Exact
                  = (Build_shr_record
                       (Zpos (shl c (Z.to_nat (53 - d)))) false false,
                     d - 53)).
    { unfold shr_fexp, fexp, emin, prec, emax.
      cbn [Zdigits2 shr_record_of_loc].
      rewrite digits_shl. fold d.
      replace (Z.max (d + Z.of_nat (Z.to_nat (53 - d)) + (d - 53) - 53)
                     (3 - 1024 - 53) - (d - 53)) with 0 by lia.
      reflexivity. }
    unfold binary_round_aux. rewrite Hs.
    cbn [shr_m loc_of_shr_record round_nearest_even]. rewrite Hs'.
    cbn [shr_m]. unfold emax, prec.
    destruct (d - 53 <=? 1024 - 53) eqn:E; [reflexivity | lia].
  - (* zeros are added up to 53 bits *)
    rewrite Pos_iter_xO, shl_add.
    replace (k + Pos.to_nat q)%nat with (Z.to_nat (53 - d)) by lia.
    apply round_aux_canonical.
    + rewrite digits_shl. fold d. lia.
    + lia.
Qed.

(** Integers below [2 ^ 53] in magnitude have at most 53 bits. *)
Lemma digits_bound (p : positive) (n : nat) :
  Zpos p < 2 ^ Z.of_nat n -> Zpos (digits2_pos p) <= Z.of_nat n.
Proof.
  revert n. induction p as [p IH | p IH |]; intros n H; cbn [digits2_pos].
  - destruct n as [|n]; [simpl in H; lia |].
    rewrite Nat2Z.inj_succ, Z.pow_succ_r in H by lia.
    rewrite Pos2Z.inj_succ, Nat2Z.inj_succ.
    specialize (IH n). lia.
  - destruct n as [|n]; [simpl in H; lia |].
    rewrite Nat2Z.inj_succ, Z.pow_succ_r in H by lia.
    rewrite Pos2Z.inj_succ, Nat2Z.inj_succ.
    specialize (IH n). lia.
  - destruct n as [|n]; [simpl in H; lia |]. lia.
Qed.

Lemma digits_safe (p : positive) : Zpos p < 2 ^ 53 -> Zpos (digits2_pos p) <= 53.
Proof. intros H. apply (digits_bound p 53). exact H. Qed.

Lemma binary_round_int (s : bool) (p : positive) :
  Zpos (digits2_pos p) <= 53 ->
  binary_round prec emax s p 0
  = S754_finite s (shl p (Z.to_nat (53 - Zpos (digits2_pos p))))
                  (Zpos (digits2_pos p) - 53).
Proof. intros H. exact (binary_round_shl s p 0 H). Qed.

(** The integer [z * 2 ^ k], given at the exponent [- k], is the double of
    the integer [z]. *)
Lemma binary_normalize_shl (z : Z) (k : nat) :
  safe_integer z ->
  binary_normalize prec emax (z * 2 ^ Z.of_nat k) (- Z.of_nat k) false = of_Z z.
Proof.
  intros Hz. unfold of_Z.
  destruct z as [|p|p].
  - reflexivity.
  - assert (Hp : Zpos (digits2_pos p) <= 53) by (apply digits_safe; exact Hz).
    rewrite <- Zpos_shl. cbn [binary_normalize].
    rewrite (binary_round_shl false p k Hp), (binary_round_int false p Hp).
    reflexivity.
  - assert (Hp : Zpos (digits2_pos p) <= 53) by (apply digits_safe; exact Hz).
    change (Zneg p) with (- Zpos p). rewrite Z.mul_opp_l, <- Zpos_shl.
    cbn [Z.opp binary_normalize].
    rewrite (binary_round_shl true p k Hp), (binary_round_int true p Hp).
    reflexivity.
Qed.

Lemma shl_align_value (m : positive) (ex ez : Z) :
  ez <= ex -> Zpos (fst (shl_align m ex ez)) = Zpos m * 2 ^ (ex - ez).
Proof.
  intros H. unfold shl_align.
  destruct (ez - ex) as [|q|q] eqn:Hq; cbn [fst].
  - replace (ex - ez) with 0 by lia. lia.
  - lia.
  - rewrite Pos_iter_xO, Zpos_shl. f_equal. f_equal. lia.
Qed.

(** The double of a non-zero integer of at most 53 bits: its sign, and the
    integer itself scaled by a power of two as mantissa. *)
Lemma of_Z_finite (z : Z) :
  safe_integer z -> z <> 0 ->
  exists (m : positive) (k : nat),
    of_Z z = S754_finite (sign z) m (- Z.of_nat k)
    /\ cond_Zopp (sign z) (Zpos m) = z * 2 ^ Z.of_nat k.
Proof.
  intros Hz Hnz. unfold of_Z.
  destruct z as [|p|p]; [contradiction Hnz; reflexivity | |];
    assert (Hp : Zpos (digits2_pos p) <= 53) by (apply digits_safe; exact Hz);
    exists (shl p (Z.to_nat (53 - Zpos (digits2_pos p)))),
           (Z.to_nat (53 - Zpos (digits2_pos p)));
    cbn [binary_normalize sign cond_Zopp];
    rewrite (binary_round_int _ p Hp), Zpos_shl;
    (split; [f_equal; lia | lia]).
Qed.

Lemma of_Z_opp (z : Z) : safe_integer z -> z <> 0 -> of_Z (- z) = SFopp (of_Z z).
Proof.
  intros Hz Hnz. unfold of_Z.
  destruct z as [|p|p]; [contradiction Hnz; reflexivity | |];
    assert (Hp : Zpos (digits2_pos p) <= 53) by (apply digits_safe; exact Hz);
    cbn [Z.opp binary_normalize];
    rewrite !(binary_round_int _ p Hp); reflexivity.
Qed.

Lemma cond_Zopp_mul (s : bool) (a b : Z) :
  cond_Zopp s (a * b) = cond_Zopp s a * b.
Proof. destruct s; cbn [cond_Zopp]; lia. Qed.

Lemma aligned (s : bool) (m : positive) (k : nat) (z ez : Z) :
  cond_Zopp s (Zpos m) = z * 2 ^ Z.of_nat k ->
  0 <= - ez -> ez <= - Z.of_nat k ->
  cond_Zopp s (Zpos (fst (shl_align m (- Z.of_nat k) ez))) = z * 2 ^ (- ez).
Proof.
  intros H H0 Hez. rewrite shl_align_value by lia.
  rewrite cond_Zopp_mul, H, <- Z.mul_assoc, <- Z.pow_add_r by lia.
  f_equal. f_equal. lia.
Qed.

(** Subtraction and addition of doubles are exact on integers, as long as
    the operands and the result have at most 53 bits. *)
Lemma sub_of_Z (a b : Z) :
  safe_integer a -> safe_integer b -> safe_integer (a - b) ->
  sub (of_Z a) (of_Z b) = of_Z (a - b).
Proof.
  intros Ha Hb Hab.
  destruct (Z.eq_dec b 0) as [-> | Hb0].
  - rewrite Z.sub_0_r. change (of_Z 0) with (S754_zero false).
    unfold sub. destruct (of_Z a) as [[|]| | |]; reflexivity.
  - destruct (of_Z_finite b Hb Hb0) as (mb & kb & Eb & Vb).
    destruct (Z.eq_dec a 0) as [-> | Ha0].
    + change (0 - b) with (- b). rewrite (of_Z_opp b Hb Hb0), Eb. reflexivity.
    + destruct (of_Z_finite a Ha Ha0) as (ma & ka & Ea & Va).
      rewrite Ea, Eb. unfold sub. cbn [SFsub].
      set (ez := Z.min (- Z.of_nat ka) (- Z.of_nat kb)).
      rewrite (aligned _ ma ka a ez Va), (aligned _ mb kb b ez Vb)
        by (unfold ez; lia).
      rewrite <- Z.mul_sub_distr_r.
      replace ez with (- Z.of_nat (Z.to_nat (- ez))) at 2 by (unfold ez; lia).
      replace (- ez) with (Z.of_nat (Z.to_nat (- ez))) at 1 by (unfold ez; lia).
      apply binary_normalize_shl. exact Hab.
Qed.

Lemma add_of_Z (a b : Z) :
  safe_integer a -> safe_integer b -> safe_integer (a + b) ->
  add (of_Z a) (of_Z b) = of_Z (a + b).
Proof.
  intros Ha Hb Hab.
  destruct (Z.eq_dec b 0) as [-> | Hb0].
  - rewrite Z.add_0_r. destruct (Z.eq_dec a 0) as [-> | Ha0]; [reflexivity |].
    destruct (of_Z_finite a Ha Ha0) as (ma & ka & Ea & _).
    rewrite Ea. reflexivity.
  - destruct (of_Z_finite b Hb Hb0) as (mb & kb & Eb & Vb).
    destruct (Z.eq_dec a 0) as [-> | Ha0].
    + change (of_Z 0) with (S754_zero false). rewrite Z.add_0_l, Eb.
      reflexivity.
    + destruct (of_Z_finite a Ha Ha0) as (ma & ka & Ea & Va).
      rewrite Ea, Eb. unfold add. cbn [SFadd].
      set (ez := Z.min (- Z.of_nat ka) (- Z.of_nat kb)).
      rewrite (aligned _ ma ka a ez Va), (aligned _ mb kb b ez Vb)
        by (unfold ez; lia).
      rewrite <- Z.mul_add_distr_r.
      replace ez with (- Z.of_nat (Z.to_nat (- ez))) at 2 by (unfold ez; lia).
      replace (- ez) with (Z.of_nat (Z.to_nat (- ez))) at 1 by (unfold ez; lia).
      apply binary_normalize_shl. exact Hab.
Qed.

End DoubleTheory.

(** * The canvas on doubles *)

Module DoubleCanvasTheory.
Import Double DoubleCanvas DoubleTheory.
Local Open Scope Z_scope.

Lemma run_concat (st : State) (l1 l2 : list Event) :
  run st (l1 ++ l2) = run (run st l1) l2.
Proof. apply fold_left_app. Qed.

Lemma flag_after_step (st : State) (ev : Event) :
  isDragging (step st ev)
  = if begins_drag ev then true
    else if ends_drag ev then false
    else isDragging st.
Proof.
  destruct ev as [e|e| | |e|e| |e| ]; cbn [step begins_drag ends_drag];
    try reflexivity.
  - unfold handleMouseDown. destruct (MouseEvent.button e =? 0); reflexivity.
  - unfold handleMouseMove. destruct (negb (isDragging st)); reflexivity.
  - unfold handleTouchStart.
    destruct (TouchEvent.touches e) as [|t0 [|t1 ts]]; reflexivity.
  - unfold handleTouchMove.
    destruct (TouchEvent.touches e) as [|t0 [|t1 ts]]; try reflexivity.
    destruct (negb (isDragging st)); reflexivity.
Qed.

Lemma anchor_after_step (st : State) (ev : Event) :
  begins_drag ev = false -> dragStart (step st ev) = dragStart st.
Proof.
  destruct ev as [e|e| | |e|e| |e| ]; cbn [step begins_drag];
    intros H; try reflexivity.
  - unfold handleMouseDown. rewrite H. reflexivity.
  - unfold handleMouseMove. destruct (negb (isDragging st)); reflexivity.
  - unfold handleTouchStart.
    destruct (TouchEvent.touches e) as [|t0 [|t1 ts]];
      try reflexivity; discriminate H.
  - unfold handleTouchMove.
    destruct (TouchEvent.touches e) as [|t0 [|t1 ts]]; try reflexivity.
    destruct (negb (isDragging st)); reflexivity.
Qed.

(** Events that neither begin nor end a drag leave the drag as it is. *)
Lemma anchor_kept (mids : list Event) (st : State) :
  forallb keeps_anchor mids = true ->
  isDragging (run st mids) = isDragging st
  /\ dragStart (run st mids) = dragStart st.
Proof.
  revert st. induction mids as [|ev mids IH]; intros st H; simpl in *.
  - split; reflexivity.
  - apply andb_true_iff in H. destruct H as [Hev Hmids].
    unfold keeps_anchor in Hev. apply andb_true_iff in Hev.
    destruct Hev as [Hb He].
    apply negb_true_iff in Hb. apply negb_true_iff in He.
    destruct (IH (step st ev) Hmids) as [IH1 IH2].
    rewrite IH1, IH2, flag_after_step, Hb, He, (anchor_after_step st ev Hb).
    split; reflexivity.
Qed.

Lemma drag_begun (st : State) (d : Event) (p0 : Point) :
  begins_drag d = true -> position d = Some p0 ->
  isDragging (step st d) = true
  /\ dragStart (step st d) = psub p0 (pan st)
  /\ pan (step st d) = pan st.
Proof.
  destruct d as [e|e| | |e|e| |e| ]; cbn [begins_drag position step];
    intros Hb Hp; try discriminate Hb.
  - injection Hp as <-. unfold handleMouseDown. rewrite Hb.
    repeat split; reflexivity.
  - unfold handleTouchStart.
    destruct (TouchEvent.touches e) as [|t0 [|t1 ts]]; try discriminate Hp.
    injection Hp as <-. repeat split; reflexivity.
Qed.

Lemma move_during_drag (st : State) (m : Event) (p : Point) :
  is_move m = true -> position m = Some p -> isDragging st = true ->
  pan (step st m) = psub p (dragStart st).
Proof.
  destruct m as [e|e| | |e|e| |e| ]; cbn [is_move position step];
    intros Hm Hp Hd; try discriminate Hm.
  - injection Hp as <-. unfold handleMouseMove. rewrite Hd. reflexivity.
  - unfold handleTouchMove.
    destruct (TouchEvent.touches e) as [|t0 [|t1 ts]]; try discriminate Hp.
    injection Hp as <-. rewrite Hd. reflexivity.
Qed.

(** The pan a move gives during a drag: the position of the move minus the
    anchor, which is the position of the beginning minus the pan of then. *)
Lemma pan_of_drag (st0 : State) (d : Event) (mids : list Event) (m : Event)
    (p0 p : Point) :
  begins_drag d = true -> position d = Some p0 ->
  forallb keeps_anchor mids = true ->
  is_move m = true -> position m = Some p ->
  pan (run st0 (d :: mids ++ [m])) = psub p (psub p0 (pan st0))
  /\ isDragging (run st0 (d :: mids ++ [m])) = true.
Proof.
  intros Hb Hp0 Hmids Hm Hp.
  change (run st0 (d :: mids ++ [m])) with (run (step st0 d) (mids ++ [m])).
  rewrite run_concat.
  destruct (drag_begun st0 d p0 Hb Hp0) as (Hd & Ha & _).
  destruct (anchor_kept mids (step st0 d) Hmids) as [Hd' Ha'].
  rewrite Hd in Hd'. rewrite Ha in Ha'.
  cbn [run fold_left]. split.
  - rewrite (move_during_drag _ m p Hm Hp Hd'), Ha'. reflexivity.
  - rewrite flag_after_step.
    destruct m as [e|e| | |e|e| |e| ]; try discriminate Hm; exact Hd'.
Qed.

(** On small whole pixels the two subtractions of a drag are exact, and so
    is the sum the specification gives. *)
Lemma pixel_drag (a p0 p : Pixel) :
  small a -> small p0 -> small p ->
  psub (at_pixel p) (psub (at_pixel p0) (at_pixel a))
  = at_pixel (pixel_add a (pixel_sub p p0))
  /\ padd (at_pixel a) (psub (at_pixel p) (at_pixel p0))
     = at_pixel (pixel_add a (pixel_sub p p0)).
Proof.
  intros [Hax Hay] [H0x H0y] [Hpx Hpy].
  assert (E : 2 ^ 53 = 4 * 2 ^ 51) by reflexivity.
  unfold psub, padd, at_pixel, pixel_add, pixel_sub. cbn [x y px py].
  split.
  - rewrite !sub_of_Z by (unfold safe_integer; lia).
    f_equal; f_equal; lia.
  - rewrite !sub_of_Z, !add_of_Z by (unfold safe_integer; lia).
    reflexivity.
Qed.

(** ** The pan a drag gives *)

(** A drag that begins at 0.4 with the pan at (0.1, 0) and comes back to
    0.4: the anchor is [0.4 - 0.1 = 0.30000000000000004], and the pan becomes
    [0.4 - 0.30000000000000004 = 0.09999999999999998], not [0.1]. *)
Example drag_back_to_start :
  let st0 := setPan {| x := tenths 1; y := lit_0 |} initial in
  let e := MouseEvent.mk 0 (tenths 4) lit_0 in
  tenths 1 = S754_finite false 7205759403792794 (-56)
  /\ dragStart (run st0 [OnMouseDown e])
     = {| x := S754_finite false 5404319552844596 (-54); y := lit_0 |}
  /\ pan (run st0 [OnMouseDown e; OnMouseMove e])
     = {| x := S754_finite false 7205759403792792 (-56); y := lit_0 |}.
Proof. vm_compute. repeat split. Qed.

(** C2, as stated, does not hold: from the initial state a first drag from
    (0, 0) to (0.1, 0) leaves the pan at (0.1, 0); in a second drag the
    button goes down at (0.4, 0) and a move arrives at the same point, so
    [p - p0] is zero and [pan0 + (p - p0)] is the pan (0.1, 0) itself, yet
    the move sets the pan to (0.09999999999999998, 0). *)
Lemma drag_back_to_start_moves_pan : ~ drag_sets_pan_to_pan0_plus_delta.
Proof.
  intros H.
  specialize (H [OnMouseDown (MouseEvent.mk 0 lit_0 lit_0);
                 OnMouseMove (MouseEvent.mk 0 (tenths 1) lit_0);
                 OnMouseUp]
                (MouseEvent.mk 0 (tenths 4) lit_0) []
                (MouseEvent.mk 0 (tenths 4) lit_0) eq_refl eq_refl).
  vm_compute in H. discriminate H.
Qed.

(** C2, amended.  A drag begun by a left-button mouse-down at [e0] while the
    pan is [pan st0]: whatever events follow that neither end the drag nor
    begin a new one (any number of moves among them), a mouse-move to [e]
    sets the pan to [pointer e - (pointer e0 - pan st0)], each subtraction
    being the one of doubles; the pan depends on the anchor and on the last
    position only.  When the pan of the beginning and the two positions are
    whole pixels of magnitude at most [2 ^ 51], this is exactly
    [pan st0 + (pointer e - pointer e0)]. *)
Theorem drag_pan_is_pointer_minus_anchor :
  forall (st0 : State) (e0 : MouseEvent.t) (mids : list Event)
         (e : MouseEvent.t),
    MouseEvent.button e0 = 0 ->
    forallb keeps_anchor mids = true ->
    let st := run st0 (OnMouseDown e0 :: mids ++ [OnMouseMove e]) in
    pan st = psub (pointer e) (psub (pointer e0) (pan st0))
    /\ (forall a p0 p : Pixel,
           small a -> small p0 -> small p ->
           pan st0 = at_pixel a ->
           pointer e0 = at_pixel p0 ->
           pointer e = at_pixel p ->
           pan st = padd (pan st0) (psub (pointer e) (pointer e0))
           /\ pan st = at_pixel (pixel_add a (pixel_sub p p0))).
Proof.
  intros st0 e0 mids e Hleft Hmids st.
  assert (Hpan : pan st = psub (pointer e) (psub (pointer e0) (pan st0))).
  { apply (pan_of_drag st0 (OnMouseDown e0) mids (OnMouseMove e));
      try reflexivity; [| exact Hmids].
    cbn [begins_drag]. rewrite Hleft. reflexivity. }
  split; [exact Hpan |].
  intros a p0 p Ha Hp0 Hp Ea E0 E.
  rewrite Hpan, Ea, E0, E.
  destruct (pixel_drag a p0 p Ha Hp0 Hp) as [H1 H2].
  rewrite H2. split; exact H1.
Qed.

Lemma drag_pan_is_pointer_minus_anchor_witness :
  let e0 := MouseEvent.mk 0 (of_Z 10) (of_Z 20) in
  let mids := [OnMouseMove (MouseEvent.mk 0 (tenths 114) (tenths 257));
               OnWheel (WheelEvent.mk (of_Z 100))] in
  let e := MouseEvent.mk 0 (of_Z 40) (of_Z 5) in
  pan (run initial (OnMouseDown e0 :: mids ++ [OnMouseMove e]))
  = at_pixel (mkPixel 30 (-15)).
Proof.
  intros e0 mids e.
  destruct (drag_pan_is_pointer_minus_anchor initial e0 mids e)
    as [_ Hpixels]; [reflexivity | reflexivity |].
  apply (Hpixels (mkPixel 0 0) (mkPixel 10 20) (mkPixel 40 5));
    try reflexivity; split; cbn; lia.
Defined.

(** ** Drags begun and continued by any pointer *)

(** X10.  A drag begun by a left-button mouse-down or by a single touch at
    [p0]: whatever follows that neither ends the drag nor begins another, a
    mouse-move or a single-touch move at [p] sets the pan to
    [p - (p0 - pan st0)] in the arithmetic of doubles, also when the drag is
    begun by one kind of pointer and continued by the other; and the drag
    is still under way. *)
Theorem drag_by_any_pointer :
  forall (st0 : State) (d : Event) (mids : list Event) (m : Event)
         (p0 p : Point),
    begins_drag d = true -> position d = Some p0 ->
    forallb keeps_anchor mids = true ->
    is_move m = true -> position m = Some p ->
    pan (run st0 (d :: mids ++ [m])) = psub p (psub p0 (pan st0))
    /\ isDragging (run st0 (d :: mids ++ [m])) = true.
Proof.
  intros st0 d mids m p0 p Hb Hp0 Hmids Hm Hp.
  exact (pan_of_drag st0 d mids m p0 p Hb Hp0 Hmids Hm Hp).
Qed.

Lemma drag_by_any_pointer_witness :
  pan (run initial
         [OnMouseDown (MouseEvent.mk 0 (tenths 104) (tenths 207));
          OnWheel (WheelEvent.mk (of_Z 100));
          OnTouchMove (TouchEvent.mk [Touch.mk (tenths 43) (tenths 86)])])
  = psub (mkPoint (tenths 43) (tenths 86))
         (psub (mkPoint (tenths 104) (tenths 207)) (pan initial)).
Proof.
  apply (drag_by_any_pointer initial
           (OnMouseDown (MouseEvent.mk 0 (tenths 104) (tenths 207)))
           [OnWheel (WheelEvent.mk (of_Z 100))]
           (OnTouchMove
              (TouchEvent.mk [Touch.mk (tenths 43) (tenths 86)])));
    reflexivity.
Defined.

(** ** Successive drags *)

Lemma moves_keep_anchor (ps : list Point) :
  forallb keeps_anchor (map (fun p => OnMouseMove (mouse_at 0 p)) ps) = true.
Proof. induction ps as [|p ps IH]; simpl; [reflexivity | exact IH]. Qed.

Lemma run_drag (st : State) (d : Drag) (q : Pixel) :
  pan st = at_pixel q -> small q -> small (from d) -> small (to d) ->
  pan (run st (drag_events d)) = at_pixel (moved q d)
  /\ isDragging (run st (drag_events d)) = false.
Proof.
  intros Eq Hq Hfrom Hto. unfold drag_events.
  set (down := OnMouseDown (mouse_at 0 (at_pixel (from d)))).
  set (moves := map (fun p => OnMouseMove (mouse_at 0 p)) (via d)).
  set (last := OnMouseMove (mouse_at 0 (at_pixel (to d)))).
  replace (down :: moves ++ [last; OnMouseUp])
    with ((down :: moves ++ [last]) ++ [OnMouseUp])
    by (cbn [app]; rewrite <- app_assoc; reflexivity).
  rewrite run_concat.
  destruct (pan_of_drag st down moves last
              (at_pixel (from d)) (at_pixel (to d))
              eq_refl eq_refl (moves_keep_anchor (via d))
              eq_refl eq_refl) as [Hpan _].
  set (st1 := run st (down :: moves ++ [last])) in *.
  split; [| reflexivity].
  change (pan (run st1 [OnMouseUp])) with (pan st1).
  rewrite Hpan, Eq. apply (pixel_drag q (from d) (to d) Hq Hfrom Hto).
Qed.

(** X11.  Successive mouse drags between whole pixels add up exactly: when
    the pan is at a whole pixel and every drag begins and ends at one (all
    of magnitude at most [2 ^ 51], the pan each drag begins with included),
    the pan after the drags is the starting pan plus, for each drag, the
    vector from the point where the button went down to the last point
    reached; the intermediate points, whole or not, do not count, and no
    drag is left under way. *)
Theorem successive_pixel_drags_add_up :
  forall (ds : list Drag) (st : State) (q : Pixel),
    pan st = at_pixel q ->
    drags_fit q ds ->
    pan (run st (flat_map drag_events ds)) = at_pixel (moved_by ds q)
    /\ (ds <> [] -> isDragging (run st (flat_map drag_events ds)) = false).
Proof.
  induction ds as [|d ds IH]; intros st q Eq Hfit.
  - split; [exact Eq | intros H; contradiction H; reflexivity].
  - destruct Hfit as (Hq & Hfrom & Hto & Hfit).
    destruct (run_drag st d q Eq Hq Hfrom Hto) as [Hpan Hflag].
    cbn [flat_map]. rewrite run_concat.
    destruct (IH (run st (drag_events d)) (moved q d) Hpan Hfit)
      as [IHpan IHflag].
    split; [exact IHpan |].
    intros _. destruct ds as [|d' ds'].
    + cbn [flat_map run fold_left]. exact Hflag.
    + apply IHflag. discriminate.
Qed.

Lemma successive_pixel_drags_add_up_witness :
  let d1 := mkDrag (mkPixel 10 10) [mkPoint (tenths 501) (tenths 3)]
                   (mkPixel 15 12) in
  let d2 := mkDrag (mkPixel 200 100) [] (mkPixel 190 130) in
  pan (run initial (flat_map drag_events [d1; d2]))
  = at_pixel (mkPixel (-5) 32).
Proof.
  intros d1 d2.
  apply (successive_pixel_drags_add_up [d1; d2] initial (mkPixel 0 0)).
  - reflexivity.
  - repeat split; vm_compute; discriminate.
Defined.

End DoubleCanvasTheory.

(** * Properties of the explore page *)

Module ExploreTheory.
Import JS Explore.
Local Open Scope string_scope.
Local Open Scope list_scope.

(** ** The hashtag list *)

Example trim_example : trim "  #Sun Set  " = "#Sun Set".
Proof. reflexivity. Qed.

Example clean_example :
  toLowerCase (replace_leading_hash (trim "  #SunSet ")) = "sunset".
Proof. reflexivity. Qed.

Example add_remove_example :
  hashtags_after
    [AddHashtag "#Sun"; AddHashtag "sun"; AddHashtag "  "; AddHashtag "Sea";
     RemoveHashtag "sun"]
  = ["sea"].
Proof. reflexivity. Qed.

Lemma lowerUnit_idempotent (c : ascii) : lowerUnit (lowerUnit c) = lowerUnit c.
Proof. destruct c as [[] [] [] [] [] [] [] []]; reflexivity. Qed.

Lemma toLowerCase_idempotent (s : string) :
  toLowerCase (toLowerCase s) = toLowerCase s.
Proof.
  induction s as [|c s IH]; simpl; [reflexivity |].
  rewrite lowerUnit_idempotent, IH. reflexivity.
Qed.

Lemma is_empty_false (s : string) : is_empty s = false -> s <> "".
Proof. destruct s; [discriminate | intros _; discriminate]. Qed.

Lemma includes_false (xs : list string) (v : string) :
  includes xs v = false -> ~ In v xs.
Proof.
  unfold includes. intros H Hin.
  assert (E : existsb (String.eqb v) xs = true).
  { apply existsb_exists. exists v. split; [exact Hin | apply String.eqb_refl]. }
  rewrite E in H. discriminate H.
Qed.

(** What one call of [addHashtag] does to the list. *)
Lemma addHashtag_hashtags (tag : string) (st : State) :
  let cleanTag := toLowerCase (replace_leading_hash (trim tag)) in
  hashtags (addHashtag tag st)
  = if negb (is_empty cleanTag) && negb (includes (hashtags st) cleanTag)
    then hashtags st ++ [cleanTag]
    else hashtags st.
Proof.
  unfold addHashtag. cbv zeta.
  destruct (negb _ && negb _); reflexivity.
Qed.

Lemma removeHashtag_hashtags (tag : string) (st : State) :
  hashtags (removeHashtag tag st)
  = filter (fun t => negb (String.eqb t tag)) (hashtags st).
Proof. reflexivity. Qed.

Lemma applyOp_keeps_lower_nodup (st : State) (op : HashtagOp) :
  Forall lower_tag (hashtags st) /\ NoDup (hashtags st) ->
  Forall lower_tag (hashtags (applyOp st op))
  /\ NoDup (hashtags (applyOp st op)).
Proof.
  intros [Hall Hnd]. destruct op as [tag | tag]; cbn [applyOp].
  - rewrite addHashtag_hashtags. cbv zeta.
    destruct (negb (is_empty _)) eqn:He; cbn [andb]; [| split; assumption].
    destruct (negb (includes _ _)) eqn:Hi; [| split; assumption].
    apply negb_true_iff in He. apply negb_true_iff in Hi.
    split.
    + apply Forall_app. split; [exact Hall |].
      constructor; [| constructor].
      split; [apply is_empty_false, He | apply toLowerCase_idempotent].
    + apply NoDup_app; [exact Hnd | constructor; [intros [] | constructor] |].
      intros a Ha [<- | []]. exact (includes_false _ _ Hi Ha).
  - rewrite removeHashtag_hashtags. split.
    + apply Forall_forall. intros t Ht. apply filter_In in Ht.
      destruct Ht as [Ht _]. revert t Ht. apply Forall_forall, Hall.
    + apply NoDup_filter, Hnd.
Qed.

(** X2.  Starting from the empty list, every sequence of [addHashtag] and
    [removeHashtag] calls leaves a list of non-empty lower-case tags without
    duplicates. *)
Theorem hashtags_lower_nodup :
  forall ops : list HashtagOp,
    Forall lower_tag (hashtags_after ops) /\ NoDup (hashtags_after ops).
Proof.
  intros ops. unfold hashtags_after.
  induction ops as [|op ops IH] using rev_ind.
  - split; constructor.
  - rewrite fold_left_app. cbn [fold_left].
    apply applyOp_keeps_lower_nodup, IH.
Qed.

(** X3.  One call of [addHashtag] adds at most one tag, at the end of the
    list, and adds nothing when the cleaned input is empty or is already in
    the list. *)
Theorem addHashtag_adds_at_most_one :
  forall (tag : string) (st : State),
    let cleanTag := toLowerCase (replace_leading_hash (trim tag)) in
    (hashtags (addHashtag tag st) = hashtags st
     \/ hashtags (addHashtag tag st) = hashtags st ++ [cleanTag])
    /\ (cleanTag = "" \/ In cleanTag (hashtags st) ->
        hashtags (addHashtag tag st) = hashtags st).
Proof.
  intros tag st cleanTag. rewrite addHashtag_hashtags. cbv zeta.
  fold cleanTag. split.
  - destruct (negb _ && negb _); [right | left]; reflexivity.
  - intros [E | Hin].
    + rewrite E. reflexivity.
    + destruct (includes (hashtags st) cleanTag) eqn:Hi.
      * rewrite andb_false_r. reflexivity.
      * exfalso. exact (includes_false _ _ Hi Hin).
Qed.

Lemma addHashtag_adds_at_most_one_witness :
  hashtags (addHashtag " #Sun " (setHashtags ["sun"; "sea"] initial))
  = ["sun"; "sea"].
Proof.
  apply (addHashtag_adds_at_most_one " #Sun "
           (setHashtags ["sun"; "sea"] initial)).
  right. simpl. left. reflexivity.
Defined.

(** C3.  The code at the input ["##tag"]: the pattern [/^#/] takes one ['#']
    away, and the tag stored from the empty list still begins with ['#'];
    so the list does not stay free of leading ['#'] characters. *)
Theorem addHashtag_keeps_second_hash :
  hashtags_after [AddHashtag "##tag"] = ["#tag"]
  /\ ~ (forall ops : list HashtagOp, Forall clean_tag (hashtags_after ops)).
Proof.
  split; [reflexivity |].
  intros H. specialize (H [AddHashtag "##tag"]).
  inversion H as [| t l (_ & _ & Hhash) _]. discriminate Hhash.
Qed.

(** ** The asynchronous handlers *)

(** Unfolds the combinators of [M]. *)
Ltac unfold_M :=
  unfold fetch, json, preloadImageDimensions, pickRandomCenter,
    calculateCircularPlacement, console_error, alert,
    bind, ret, try_catch, try_finally, render, set, perform, tell.

(** Splits on the next answer of the world, or on the next test of the
    handler. *)
Ltac next_case :=
  match goal with
  | |- context [match ?a with Resolves _ => _ | Rejects _ => _ end] =>
      destruct a eqn:?
  | |- context [match ?a with Some _ => _ | None => _ end] =>
      destruct a eqn:?
  | |- context [if ?b then _ else _] => destruct b eqn:?
  end; cbn beta iota zeta.

Ltac all_cases := cbn beta iota zeta; repeat next_case.

Lemma length_snoc {A} (l : list A) (a : A) :
  List.length (l ++ [a]) = S (List.length l).
Proof. rewrite length_app. simpl. apply Nat.add_1_r. Qed.

Lemma skipn_length_app {A} (l r : list A) : skipn (List.length l) (l ++ r) = r.
Proof. induction l as [|a l IH]; simpl; [reflexivity | exact IH]. Qed.

(** Without network the request itself throws; inside [fetchPosts] the error
    is caught, reported on the console, and the loading flag is cleared. *)
Example fetch_throws_offline :
  fst (fetch (GetPosts None) offline (boot initial)) = Throw "Failed to fetch".
Proof. reflexivity. Qed.

Example fetchPosts_offline :
  fetchPosts offline (boot initial)
  = (Normal tt,
     {| ui := setLoading false initial;
        calls := [Fetch (GetPosts None);
                  ConsoleError "Error fetching data:"] |}).
Proof. reflexivity. Qed.

(** [fetchPosts] always returns normally, with the loading flag cleared. *)
Lemma fetchPosts_returns (w : World) (s : Sys) :
  exists s' : Sys,
    fetchPosts w s = (Normal tt, s') /\ loading (ui s') = false.
Proof.
  unfold fetchPosts. unfold_M. all_cases;
    eexists; (split; [reflexivity | reflexivity]).
Qed.

Lemma handleSearch_returns (w : World) (s : Sys) :
  exists s' : Sys, handleSearch w s = (Normal tt, s').
Proof.
  unfold handleSearch.
  unfold bind at 1. unfold render at 1. cbn beta iota zeta.
  destruct (is_empty (trim (searchQuery (ui s)))).
  - destruct (fetchPosts_returns w s) as (s' & H & _). exists s'. exact H.
  - unfold_M. all_cases; eexists; reflexivity.
Qed.

Lemma handleUpload_returns (w : World) (s : Sys) :
  exists s' : Sys,
    handleUpload w s = (Normal tt, s')
    /\ (selectedImage (ui s) <> None -> student (ui s) <> None ->
        uploading (ui s') = false).
Proof.
  unfold handleUpload.
  unfold bind at 1. unfold render at 1. cbn beta iota zeta.
  destruct (selectedImage (ui s)) as [image |];
    [destruct (student (ui s)) as [who |] |].
  - unfold try_finally, try_catch, fetch, json, alert, console_error,
      bind, ret, set, perform, tell.
    cbn beta iota zeta. cbn [ui calls].
    destruct (network w _ _) as [[] | e]; cbn beta iota zeta; cbn [ui calls].
    + destruct (body_of w _ _) as [data | e]; cbn beta iota zeta.
      * destruct (Body.success data); cbn beta iota zeta.
        -- match goal with
           | |- context [fetchPosts w ?s0] =>
               destruct (fetchPosts_returns w s0) as (s1 & -> & _)
           end.
           cbn beta iota zeta. eexists. split; [reflexivity |].
           intros _ _. reflexivity.
        -- eexists. split; [reflexivity |]. intros _ _. reflexivity.
      * eexists. split; [reflexivity |]. intros _ _. reflexivity.
    + eexists. split; [reflexivity |]. intros _ _. reflexivity.
  - exists s. split; [reflexivity |]. intros _ H. exfalso. apply H. reflexivity.
  - exists s. split; [reflexivity |]. intros H. exfalso. apply H. reflexivity.
Qed.

(** C5.  Whatever the world answers (any call may throw: the request, the
    reading of the body, the preloading, the choice of the centre, the
    placement), [fetchPosts], [handleSearch] and [handleUpload] return
    normally: no error leaves them; and [fetchPosts] ends with the loading
    flag cleared. *)
Theorem pipeline_errors_are_caught :
  forall (w : World) (s : Sys),
    (exists s' : Sys,
        fetchPosts w s = (Normal tt, s') /\ loading (ui s') = false)
    /\ (exists s' : Sys, handleSearch w s = (Normal tt, s'))
    /\ (exists s' : Sys, handleUpload w s = (Normal tt, s')).
Proof.
  intros w s. split; [| split].
  - apply fetchPosts_returns.
  - apply handleSearch_returns.
  - destruct (handleUpload_returns w s) as (s' & H & _). exists s'. exact H.
Qed.

(** X6.  With an image selected and the student known, [handleUpload] ends
    with the uploading flag cleared, whatever the world answers. *)
Theorem handleUpload_clears_uploading :
  forall (w : World) (s : Sys),
    selectedImage (ui s) <> None ->
    student (ui s) <> None ->
    uploading (ui (exec handleUpload w s)) = false.
Proof.
  intros w s Hi Hs. unfold exec.
  destruct (handleUpload_returns w s) as (s' & -> & H). exact (H Hi Hs).
Qed.

Lemma handleUpload_clears_uploading_witness :
  uploading
    (ui (exec handleUpload vanishing_posts
           (boot (setStudent (Some (Student.mk "ann"))
                    (setSelectedImage (Some "cat.png") initial)))))
  = false.
Proof. apply handleUpload_clears_uploading; discriminate. Defined.

(** ** Searches and the total count *)

(** The start of a hashtag search that is answered with the body [data]. *)
Ltac run_answered Hq Hn Hb :=
  unfold_M; cbn beta iota zeta; rewrite ?Hq; cbn beta iota zeta;
  cbn [ui calls]; rewrite Hn; cbn beta iota zeta; cbn [ui calls];
  rewrite length_snoc, Hb; cbn beta iota zeta; cbn [ui calls].

Lemma handleSearch_totalPosts (w : World) (s : Sys) :
  names_hashtag (searchQuery (ui s)) = true ->
  totalPosts (ui (exec handleSearch w s)) = totalPosts (ui s).
Proof.
  intros Hq. unfold names_hashtag in Hq. apply negb_true_iff in Hq.
  unfold exec, handleSearch. unfold_M. cbn beta iota zeta.
  rewrite Hq. all_cases; reflexivity.
Qed.

(** C10.  A hashtag search (a query that is not blank) leaves [totalPosts]
    as it was, whatever the world answers.  When the answer is a success the
    posts become the posts of the answer, however many they are; and the
    placed images become the placement of these posts when there are some
    (and dimensions, centre and placement are obtained), the empty list when
    there are none. *)
Theorem search_leaves_totalPosts :
  forall (w : World) (s : Sys),
    names_hashtag (searchQuery (ui s)) = true ->
    let n := List.length (calls s) in
    let s' := exec handleSearch w s in
    totalPosts (ui s') = totalPosts (ui s)
    /\ forall data : Body.t,
         answers w n (GetPosts (Some (searchQuery (ui s)))) data ->
         Body.success data = true ->
         posts (ui s') = Body.posts data
         /\ (Body.posts data = [] -> placedImages (ui s') = [])
         /\ forall dims c placed,
              Body.posts data <> [] ->
              dimensions_of w (2 + n) (Body.posts data) = Resolves dims ->
              center_of w (3 + n) (Body.posts data) = Resolves (Some c) ->
              placement_of w (4 + n) (Body.posts data) c dims
              = Resolves placed ->
              placedImages (ui s') = placed.
Proof.
  intros w s Hq n s'. subst n s'.
  split; [apply handleSearch_totalPosts, Hq |].
  unfold names_hashtag in Hq. apply negb_true_iff in Hq.
  - intros data [Hn Hb] Hs.
    unfold exec, handleSearch. run_answered Hq Hn Hb. rewrite Hs.
    cbn beta iota zeta.
    destruct (Body.posts data) as [|p ps] eqn:Hp;
      cbn [List.length Nat.ltb Nat.leb]; cbn beta iota zeta.
    + split; [reflexivity |]. split; [reflexivity |].
      intros dims c placed Hne. exfalso. apply Hne. reflexivity.
    + cbn [ui calls]. rewrite !length_snoc.
      split; [all_cases; reflexivity |].
      split; [intros E; discriminate E |].
      intros dims c placed _ Hdims Hc Hpl.
      cbn [Nat.add] in Hdims, Hc, Hpl.
      rewrite Hdims. cbn beta iota zeta. cbn [ui calls].
      rewrite !length_snoc, Hc. cbn beta iota zeta. cbn [ui calls].
      rewrite !length_snoc, Hpl. reflexivity.
Qed.

Lemma search_leaves_totalPosts_witness :
  let s := boot (setSearchQuery "cat" (setTotalPosts (Q2Qc 7) initial)) in
  let s' := exec handleSearch vanishing_posts s in
  totalPosts (ui s') = Q2Qc 7
  /\ posts (ui s') = [post1]
  /\ placedImages (ui s') = [place_at_origin post1].
Proof.
  intros s s'.
  destruct (search_leaves_totalPosts vanishing_posts s) as [Htotal Hposts].
  - reflexivity.
  - destruct (Hposts one_post) as (Hp & _ & Hplaced);
      [split; reflexivity | reflexivity |].
    split; [exact Htotal |]. split; [exact Hp |].
    apply (Hplaced
             [("p1"%string, ImageDimensions.mk (Q2Qc 300) (Q2Qc 300))]
             post1 [place_at_origin post1]);
      [discriminate | reflexivity | reflexivity | reflexivity].
Defined.

Lemma fetchPosts_totalPosts (w : World) (s : Sys) (data : Body.t) :
  answers w (List.length (calls s)) (GetPosts None) data ->
  Body.success data = true ->
  totalPosts (ui (exec fetchPosts w s)) = Body.total_count data.
Proof.
  intros [Hn Hb] Hs. unfold exec, fetchPosts.
  unfold_M. cbn beta iota zeta. cbn [ui calls]. rewrite Hn.
  cbn beta iota zeta. cbn [ui calls]. rewrite length_snoc, Hb.
  cbn beta iota zeta. rewrite Hs. all_cases; reflexivity.
Qed.

Lemma search_totalPosts (w : World) (s : Sys) (query : string) :
  names_hashtag query = true ->
  totalPosts (ui (exec (search query) w s)) = totalPosts (ui s).
Proof.
  intros Hq.
  change (exec (search query) w s)
    with (exec handleSearch w
            {| ui := setSearchQuery query (ui s); calls := calls s |}).
  rewrite handleSearch_totalPosts; [reflexivity | exact Hq].
Qed.

Lemma searches_totalPosts (w : World) (queries : list string) (s : Sys) :
  forallb names_hashtag queries = true ->
  totalPosts (ui (searches queries w s)) = totalPosts (ui s).
Proof.
  revert s. induction queries as [|q queries IH]; intros s Hq;
    [reflexivity |].
  simpl in Hq. apply andb_true_iff in Hq. destruct Hq as [Hq Hqs].
  change (searches (q :: queries) w s)
    with (searches queries w (exec (search q) w s)).
  rewrite (IH _ Hqs). apply search_totalPosts, Hq.
Qed.

(** X8.  After a full fetch answered with a success, hashtag searches, how
    many they are and whatever they return, leave in [totalPosts] the
    [total_count] of that fetch. *)
Theorem totalPosts_is_of_last_full_fetch :
  forall (w : World) (s : Sys) (data : Body.t) (queries : list string),
    answers w (List.length (calls s)) (GetPosts None) data ->
    Body.success data = true ->
    forallb names_hashtag queries = true ->
    totalPosts (ui (searches queries w (exec fetchPosts w s)))
    = Body.total_count data.
Proof.
  intros w s data queries Ha Hs Hq.
  rewrite (searches_totalPosts w queries _ Hq).
  apply fetchPosts_totalPosts; assumption.
Qed.

Lemma totalPosts_is_of_last_full_fetch_witness :
  totalPosts
    (ui (searches ["cat"; "#dog"] vanishing_posts
           (exec fetchPosts vanishing_posts (boot initial))))
  = 1%Qc.
Proof.
  apply (totalPosts_is_of_last_full_fetch vanishing_posts (boot initial)
           one_post ["cat"; "#dog"]);
    [split; reflexivity | reflexivity | reflexivity].
Defined.

(** ** Empty working sets *)

(** X4.  A successful, empty answer to the all-posts fetch: no centre is
    picked and the placement is not run, the posts are emptied, and the
    placed images are the ones of before. *)
Theorem fetchPosts_empty :
  forall (w : World) (s : Sys) (data : Body.t),
    answers w (List.length (calls s)) (GetPosts None) data ->
    Body.success data = true ->
    Body.posts data = [] ->
    let s' := exec fetchPosts w s in
    posts (ui s') = []
    /\ placedImages (ui s') = placedImages (ui s)
    /\ existsb is_center_pick (calls_since s s') = false
    /\ existsb is_placement (calls_since s s') = false.
Proof.
  intros w s data [Hn Hb] Hs He. unfold exec, fetchPosts, calls_since.
  unfold_M. cbn beta iota zeta. cbn [ui calls]. rewrite Hn.
  cbn beta iota zeta. cbn [ui calls]. rewrite length_snoc, Hb.
  cbn beta iota zeta. rewrite Hs, He. cbn beta iota zeta.
  cbn [List.length Nat.ltb Nat.leb].
  all_cases; cbn [snd ui calls posts placedImages setLoading setPosts
                  setTotalPosts setTrendingHashtags];
    repeat rewrite <- app_assoc; rewrite skipn_length_app;
    repeat split; reflexivity.
Qed.

Lemma fetchPosts_empty_witness :
  let s1 := exec fetchPosts vanishing_posts (boot initial) in
  let s2 := exec fetchPosts vanishing_posts s1 in
  posts (ui s2) = []
  /\ placedImages (ui s2) = placedImages (ui s1)
  /\ existsb is_center_pick (calls_since s1 s2) = false
  /\ existsb is_placement (calls_since s1 s2) = false.
Proof.
  intros s1 s2.
  apply (fetchPosts_empty vanishing_posts s1 no_post);
    [split; reflexivity | reflexivity | reflexivity].
Defined.

(** X5.  A successful, empty answer to a hashtag search: no centre is picked
    and the placement is not run, and both the posts and the placed images
    are emptied. *)
Theorem handleSearch_empty :
  forall (w : World) (s : Sys) (data : Body.t),
    names_hashtag (searchQuery (ui s)) = true ->
    answers w (List.length (calls s))
            (GetPosts (Some (searchQuery (ui s)))) data ->
    Body.success data = true ->
    Body.posts data = [] ->
    let s' := exec handleSearch w s in
    posts (ui s') = []
    /\ placedImages (ui s') = []
    /\ existsb is_center_pick (calls_since s s') = false
    /\ existsb is_placement (calls_since s s') = false.
Proof.
  intros w s data Hq [Hn Hb] Hs He.
  unfold names_hashtag in Hq. apply negb_true_iff in Hq.
  unfold exec, handleSearch, calls_since. run_answered Hq Hn Hb.
  rewrite Hs, He. cbn beta iota zeta.
  cbn [List.length Nat.ltb Nat.leb snd ui calls posts placedImages
       setPosts setPlacedImages].
  repeat rewrite <- app_assoc. rewrite skipn_length_app.
  repeat split; reflexivity.
Qed.

Lemma handleSearch_empty_witness :
  let s1 := exec fetchPosts vanishing_posts (boot initial) in
  let s := {| ui := setSearchQuery "dog" (ui s1); calls := calls s1 |} in
  let s' := exec handleSearch vanishing_posts s in
  posts (ui s') = []
  /\ placedImages (ui s') = []
  /\ existsb is_center_pick (calls_since s s') = false
  /\ existsb is_placement (calls_since s s') = false.
Proof.
  intros s1 s s'.
  apply (handleSearch_empty vanishing_posts s no_post);
    [reflexivity | split; reflexivity | reflexivity | reflexivity].
Defined.

(** C4.  The code on the second of two all-posts fetches, the first
    answered with one post and the second with a successful, empty list:
    the posts are emptied, but the image placed by the first fetch is still
    there. *)
Theorem fetchPosts_empty_keeps_stale_placement :
  let s1 := exec fetchPosts vanishing_posts (boot initial) in
  let s2 := exec fetchPosts vanishing_posts s1 in
  placedImages (ui s1) = [place_at_origin post1]
  /\ answers vanishing_posts (List.length (calls s1)) (GetPosts None) no_post
  /\ posts (ui s2) = []
  /\ placedImages (ui s2) = [place_at_origin post1]
  /\ loading (ui s2) = false.
Proof. repeat split; reflexivity. Qed.

(** ** Adding, finding and removing hashtags *)

Lemma includes_iff (xs : list string) (v : string) :
  includes xs v = true <-> In v xs.
Proof.
  unfold includes. rewrite existsb_exists. split.
  - intros (u & Hin & Heq). apply String.eqb_eq in Heq. subst u. exact Hin.
  - intros Hin. exists v. split; [exact Hin | apply String.eqb_refl].
Qed.

Lemma includes_snoc (xs : list string) (v : string) :
  includes (xs ++ [v]) v = true.
Proof. apply includes_iff, in_or_app. right. left. reflexivity. Qed.

Lemma filter_absent (xs : list string) (v : string) :
  ~ In v xs -> filter (fun t => negb (String.eqb t v)) xs = xs.
Proof.
  induction xs as [|u xs IH]; intros H; simpl; [reflexivity |].
  destruct (String.eqb_spec u v) as [-> | Hne]; simpl.
  - exfalso. apply H. left. reflexivity.
  - rewrite IH; [reflexivity |]. intros Hin. apply H. right. exact Hin.
Qed.

(** X16.  Adding, finding and removing a hashtag: after [addHashtag] the
    cleaned tag is in the list unless it is empty; removing it again gives
    back the list of before when the tag was not in it; and after
    [removeHashtag] the removed tag is not in the list, while every other
    tag is in it exactly when it was. *)
Theorem hashtag_add_remove_round_trip :
  forall (tag : string) (st : State),
    let cleanTag := toLowerCase (replace_leading_hash (trim tag)) in
    (cleanTag <> "" ->
     includes (hashtags (addHashtag tag st)) cleanTag = true)
    /\ (~ In cleanTag (hashtags st) ->
        hashtags (removeHashtag cleanTag (addHashtag tag st)) = hashtags st)
    /\ includes (hashtags (removeHashtag tag st)) tag = false
    /\ (forall t : string,
           t <> tag ->
           includes (hashtags (removeHashtag tag st)) t
           = includes (hashtags st) t).
Proof.
  intros tag st cleanTag.
  assert (Hadd := addHashtag_hashtags tag st). cbv zeta in Hadd.
  fold cleanTag in Hadd.
  split; [| split; [| split]].
  - intros Hne. rewrite Hadd.
    destruct (is_empty cleanTag) eqn:He.
    { destruct cleanTag; [contradiction | discriminate He]. }
    destruct (includes (hashtags st) cleanTag) eqn:Hi; cbn [negb andb].
    + exact Hi.
    + apply includes_snoc.
  - intros Hnot. rewrite removeHashtag_hashtags, Hadd.
    destruct (negb (is_empty cleanTag) && negb (includes (hashtags st) cleanTag)).
    + rewrite filter_app, (filter_absent _ _ Hnot). simpl.
      rewrite String.eqb_refl. simpl. apply app_nil_r.
    + apply filter_absent, Hnot.
  - rewrite removeHashtag_hashtags.
    destruct (includes _ tag) eqn:Hi; [| reflexivity].
    apply includes_iff, filter_In in Hi. destruct Hi as [_ Hi].
    rewrite String.eqb_refl in Hi. discriminate Hi.
  - intros t Hne. rewrite removeHashtag_hashtags.
    destruct (includes (hashtags st) t) eqn:Hi.
    + apply includes_iff. apply includes_iff in Hi.
      apply filter_In. split; [exact Hi |].
      apply negb_true_iff, String.eqb_neq, Hne.
    + destruct (includes (filter _ _) t) eqn:Hf; [| reflexivity].
      apply includes_iff, filter_In in Hf. destruct Hf as [Hf _].
      apply includes_iff in Hf. rewrite Hf in Hi. discriminate Hi.
Qed.

Lemma hashtag_add_remove_round_trip_witness :
  includes (hashtags (addHashtag " #Sea " (setHashtags ["sun"] initial))) "sea"
  = true
  /\ hashtags (removeHashtag "sea"
                 (addHashtag " #Sea " (setHashtags ["sun"] initial)))
     = ["sun"].
Proof.
  destruct (hashtag_add_remove_round_trip " #Sea "
              (setHashtags ["sun"] initial)) as (Hfind & Hback & _).
  split.
  - apply Hfind. discriminate.
  - apply Hback. simpl. intros [E | []]. discriminate E.
Defined.

(** X17.  [addHashtag] is idempotent: adding the same input a second time
    changes nothing, whatever the input and the state. *)
Theorem addHashtag_idempotent :
  forall (tag : string) (st : State),
    addHashtag tag (addHashtag tag st) = addHashtag tag st.
Proof.
  intros tag st.
  set (cleanTag := toLowerCase (replace_leading_hash (trim tag))).
  destruct (negb (is_empty cleanTag) && negb (includes (hashtags st) cleanTag))
    eqn:Hc.
  - assert (E : addHashtag tag st
                = setHashtagInput ""
                    (setHashtags (hashtags st ++ [cleanTag]) st)).
    { unfold addHashtag. cbv zeta. fold cleanTag. rewrite Hc. reflexivity. }
    rewrite E. unfold addHashtag. cbv zeta. fold cleanTag.
    cbn [hashtags setHashtagInput setHashtags].
    rewrite includes_snoc, andb_false_r. reflexivity.
  - assert (E : addHashtag tag st = st).
    { unfold addHashtag. cbv zeta. fold cleanTag. rewrite Hc. reflexivity. }
    rewrite E. exact E.
Qed.

Lemma hashtags_after_lower (ops : list HashtagOp) :
  Forall lower_tag (hashtags_after ops).
Proof.
  unfold hashtags_after.
  induction ops as [|op ops IH] using rev_ind; [constructor |].
  rewrite fold_left_app. cbn [fold_left].
  destruct op as [tag | tag]; cbn [applyOp].
  - rewrite addHashtag_hashtags. cbv zeta.
    destruct (negb (is_empty _)) eqn:He; cbn [andb]; [| exact IH].
    destruct (negb (includes _ _)); [| exact IH].
    apply negb_true_iff in He.
    apply Forall_app. split; [exact IH |].
    constructor; [| constructor].
    split; [apply is_empty_false, He | apply toLowerCase_idempotent].
  - rewrite removeHashtag_hashtags.
    apply Forall_forall. intros t Ht. apply filter_In in Ht.
    destruct Ht as [Ht _]. revert t Ht. apply Forall_forall, IH.
Qed.

(** X18.  The suggestion buttons of the upload form.  Clicking the button
    of a trending hashtag that is already in the cleaned form (not empty,
    and left as it is by trimming, stripping the ['#'] and lower-casing)
    disables it.  The button of a trending hashtag that holds a capital
    letter is never disabled, whatever is added or removed: the list holds
    lower-case tags only, and the test looks for the hashtag as it came. *)
Theorem suggestion_disabled_after_click :
  forall item : TrendingHashtag.t,
    let h := TrendingHashtag.hashtag item in
    (forall st : State,
        h <> "" ->
        toLowerCase (replace_leading_hash (trim h)) = h ->
        suggestionDisabled (clickSuggestion item st) item = true)
    /\ (forall ops : list HashtagOp,
           toLowerCase h <> h ->
           suggestionDisabled (fold_left applyOp ops initial) item = false).
Proof.
  intros item h. split.
  - intros st Hne Hclean. unfold suggestionDisabled, clickSuggestion.
    fold h. rewrite addHashtag_hashtags. cbv zeta. rewrite Hclean.
    destruct (is_empty h) eqn:He.
    { destruct h; [contradiction | discriminate He]. }
    destruct (includes (hashtags st) h) eqn:Hi; cbn [negb andb].
    + exact Hi.
    + apply includes_snoc.
  - intros ops Hup. unfold suggestionDisabled. fold h.
    destruct (includes _ h) eqn:Hi; [| reflexivity].
    apply includes_iff in Hi.
    pose proof (hashtags_after_lower ops) as Hall.
    unfold hashtags_after in Hall.
    rewrite Forall_forall in Hall. destruct (Hall h Hi) as [_ Hlow].
    contradiction.
Qed.

Lemma suggestion_disabled_after_click_witness :
  suggestionDisabled
    (clickSuggestion (TrendingHashtag.mk "sunset" (Q2Qc 12)) initial)
    (TrendingHashtag.mk "sunset" (Q2Qc 12)) = true
  /\ suggestionDisabled
       (fold_left applyOp [AddHashtag "Sunset"] initial)
       (TrendingHashtag.mk "Sunset" (Q2Qc 12)) = false.
Proof.
  split.
  - apply (suggestion_disabled_after_click
             (TrendingHashtag.mk "sunset" (Q2Qc 12)));
      [discriminate | reflexivity].
  - apply (suggestion_disabled_after_click
             (TrendingHashtag.mk "Sunset" (Q2Qc 12))).
    discriminate.
Defined.

(** ** Authentication *)

(** X19.  The authentication effect on the initial page: the student
    becomes known exactly when an e-mail is stored, is not empty, and the
    query answers with data and without error, and then nothing else
    happens; in every other case the state is left as it is and the page
    goes to [/login]. *)
Theorem authentication_sets_student_or_redirects :
  forall (studentEmail : option string) (single : string -> Auth.Reply),
    let result := checkAuthentication studentEmail single initial in
    (forall who : Student.t,
        student (fst result) = Some who
        <-> exists email : string,
              studentEmail = Some email /\ email <> ""
              /\ Auth.error (single email) = None
              /\ Auth.data (single email) = Some who)
    /\ (student (fst result) <> None -> snd result = [])
    /\ (student (fst result) = None ->
        fst result = initial /\ In (RouterPush "/login") (snd result)).
Proof.
  intros studentEmail single result. subst result.
  unfold checkAuthentication.
  destruct studentEmail as [email |]; cbn [fst snd].
  2:{ split; [| split].
      - intros who. split; [discriminate |].
        intros (e & He & _). discriminate He.
      - intros H. exfalso. apply H. reflexivity.
      - intros _. split; [reflexivity | left; reflexivity]. }
  destruct (is_empty email) eqn:He; cbn [fst snd].
  { split; [| split].
    - intros who. split; [discriminate |].
      intros (e & Hs & Hne & _). injection Hs as <-.
      destruct email; [contradiction | discriminate He].
    - intros H. exfalso. apply H. reflexivity.
    - intros _. split; [reflexivity | left; reflexivity]. }
  destruct (Auth.error (single email)) as [err |] eqn:Herr;
    [| destruct (Auth.data (single email)) as [d |] eqn:Hd]; cbn [fst snd].
  - split; [| split].
    + intros who. split; [discriminate |].
      intros (e & Hs & _ & Hnone & _). injection Hs as <-.
      rewrite Herr in Hnone. discriminate Hnone.
    + intros H. exfalso. apply H. reflexivity.
    + intros _. split; [reflexivity | right; left; reflexivity].
  - split; [| split].
    + intros who. split.
      * intros H. injection H as <-. exists email.
        repeat split; try assumption. apply is_empty_false, He.
      * intros (e & Hs & _ & _ & Hdata). injection Hs as <-.
        rewrite Hd in Hdata. injection Hdata as <-. reflexivity.
    + intros _. reflexivity.
    + discriminate.
  - split; [| split].
    + intros who. split; [discriminate |].
      intros (e & Hs & _ & _ & Hdata). injection Hs as <-.
      rewrite Hd in Hdata. discriminate Hdata.
    + intros H. exfalso. apply H. reflexivity.
    + intros _. split; [reflexivity | right; left; reflexivity].
Qed.

Lemma authentication_sets_student_or_redirects_witness :
  snd (checkAuthentication (Some "ann@example.org")
         (fun _ => Auth.mk (Some (Student.mk "Ann")) None) initial) = []
  /\ In (RouterPush "/login")
        (snd (checkAuthentication (Some "")
                (fun _ => Auth.mk (Some (Student.mk "Ann")) None) initial)).
Proof.
  split.
  - apply (authentication_sets_student_or_redirects (Some "ann@example.org")
             (fun _ => Auth.mk (Some (Student.mk "Ann")) None)).
    discriminate.
  - apply (authentication_sets_student_or_redirects (Some "")
             (fun _ => Auth.mk (Some (Student.mk "Ann")) None)).
    reflexivity.
Defined.

(** ** What the handlers leave alone *)

(** Brings the log of the state reached back to the log of before followed
    by the calls made. *)
Ltac calls_made :=
  unfold calls_since; cbn [snd ui calls];
  repeat rewrite <- app_assoc; rewrite ?skipn_length_app; cbn [app].

Lemma same_form_refl (a : State) : same_form a a.
Proof. repeat split. Qed.

Lemma fetchPosts_effects (w : World) (s : Sys) :
  let s' := exec fetchPosts w s in
  same_form (ui s) (ui s')
  /\ loading (ui s') = false
  /\ exists rest : list Call,
       calls s' = calls s ++ Fetch (GetPosts None) :: rest
       /\ existsb is_alert rest = false.
Proof.
  unfold exec, fetchPosts. unfold_M. all_cases;
    (split; [repeat split |]); (split; [reflexivity |]);
    cbn [snd calls]; repeat rewrite <- app_assoc; cbn [app];
    eexists; (split; [reflexivity | reflexivity]).
Qed.

(** X20.  [fetchPosts] never touches the student, the search box or the
    upload form, and never raises an alert, whatever the world answers. *)
Theorem fetchPosts_leaves_form_alone :
  forall (w : World) (s : Sys),
    let s' := exec fetchPosts w s in
    same_form (ui s) (ui s')
    /\ existsb is_alert (calls_since s s') = false.
Proof.
  intros w s s'. subst s'.
  destruct (fetchPosts_effects w s) as (Hform & _ & rest & Hcalls & Hrest).
  split; [exact Hform |].
  unfold calls_since. rewrite Hcalls, skipn_length_app. exact Hrest.
Qed.



(** X22.  A search whose answer is a success with posts, but for which the
    dimensions, the centre or the placement is not obtained (a step throws,
    or no centre is returned): the posts are already the new ones, and the
    placed images are still the ones of before. *)
Theorem search_keeps_old_placement_on_failure :
  forall (w : World) (s : Sys) (data : Body.t),
    names_hashtag (searchQuery (ui s)) = true ->
    answers w (List.length (calls s))
            (GetPosts (Some (searchQuery (ui s)))) data ->
    Body.success data = true ->
    Body.posts data <> [] ->
    (forall dims placed,
        ~ placed_by w (List.length (calls s)) (Body.posts data) dims placed) ->
    let s' := exec handleSearch w s in
    posts (ui s') = Body.posts data
    /\ placedImages (ui s') = placedImages (ui s).
Proof.
  intros w s data Hq [Hn Hb] Hs Hne Hfail.
  unfold names_hashtag in Hq. apply negb_true_iff in Hq.
  unfold exec, handleSearch. run_answered Hq Hn Hb. rewrite Hs.
  cbn beta iota zeta.
  destruct (Body.posts data) as [|p ps] eqn:Hp; [contradiction |].
  cbn [List.length Nat.ltb Nat.leb]. cbn beta iota zeta. cbn [ui calls].
  rewrite !length_snoc.
  destruct (dimensions_of w _ _) as [dims | e1] eqn:Hdims;
    cbn beta iota zeta; cbn [ui calls]; rewrite ?length_snoc;
    [| split; reflexivity].
  destruct (center_of w _ _) as [[c |] | e2] eqn:Hc;
    cbn beta iota zeta; cbn [ui calls]; rewrite ?length_snoc;
    [| split; reflexivity | split; reflexivity].
  destruct (placement_of w _ _ _ _) as [placed | e3] eqn:Hpl;
    cbn beta iota zeta; [| split; reflexivity].
  exfalso. apply (Hfail dims placed). exists c.
  cbn [Nat.add]. repeat split; assumption.
Qed.

Lemma search_keeps_old_placement_on_failure_witness :
  let w :=
    {| network := fun _ _ => Resolves tt;
       body_of := fun _ _ => Resolves one_post;
       dimensions_of := fun _ _ => Rejects "image failed to load";
       center_of := fun _ ps => Resolves (hd_error ps);
       placement_of := fun _ ps _ _ => Resolves (map place_at_origin ps) |} in
  let s := boot (setSearchQuery "cat" initial) in
  posts (ui (exec handleSearch w s)) = [post1]
  /\ placedImages (ui (exec handleSearch w s)) = [].
Proof.
  intros w s.
  apply (search_keeps_old_placement_on_failure w s one_post);
    [reflexivity | split; reflexivity | reflexivity | discriminate |].
  intros dims placed (c & Hd & _). discriminate Hd.
Defined.

(** ** The whole of a full fetch *)

(** X23.  A full fetch in which every call goes through: the posts, the
    total, the dimensions and the placed images are the ones obtained, the
    trending hashtags are the ones of the second answer when it is a
    success and the old ones otherwise, the loading flag is cleared, and
    the calls are, in this order, the posts request, its body, the
    preloading, the choice of the centre, the placement, the trending
    request and its body. *)
Theorem fetchPosts_full_pipeline :
  forall (w : World) (s : Sys) (data tdata : Body.t) (dims : Dimensions)
         (c : Post.t) (placed : list PlacedImage.t),
    let n := List.length (calls s) in
    answers w n (GetPosts None) data ->
    Body.success data = true ->
    Body.posts data <> [] ->
    dimensions_of w (2 + n) (Body.posts data) = Resolves dims ->
    center_of w (3 + n) (Body.posts data) = Resolves (Some c) ->
    placement_of w (4 + n) (Body.posts data) c dims = Resolves placed ->
    answers w (5 + n) GetTrending tdata ->
    let s' := exec fetchPosts w s in
    posts (ui s') = Body.posts data
    /\ totalPosts (ui s') = Body.total_count data
    /\ imageDimensions (ui s') = dims
    /\ placedImages (ui s') = placed
    /\ trendingHashtags (ui s')
       = (if Body.success tdata then Body.trending tdata
          else trendingHashtags (ui s))
    /\ loading (ui s') = false
    /\ calls_since s s'
       = [Fetch (GetPosts None); ReadJson (GetPosts None);
          PreloadImageDimensions (Body.posts data);
          PickRandomCenter (Body.posts data);
          CalculateCircularPlacement (Body.posts data) c dims;
          Fetch GetTrending; ReadJson GetTrending].
Proof.
  intros w s data tdata dims c placed n [Hn Hb] Hs Hne Hdims Hc Hpl [Htn Htb].
  subst n. cbn [Nat.add] in Hdims, Hc, Hpl, Htn, Htb.
  unfold exec, fetchPosts. unfold_M. cbn beta iota zeta. cbn [ui calls].
  rewrite Hn. cbn beta iota zeta. cbn [ui calls]. rewrite length_snoc, Hb.
  cbn beta iota zeta. rewrite Hs. cbn beta iota zeta.
  destruct (Body.posts data) as [|p ps] eqn:Hp; [contradiction |].
  cbn [List.length Nat.ltb Nat.leb]. cbn beta iota zeta. cbn [ui calls].
  rewrite !length_snoc, Hdims. cbn beta iota zeta. cbn [ui calls].
  rewrite !length_snoc, Hc. cbn beta iota zeta. cbn [ui calls].
  rewrite !length_snoc, Hpl. cbn beta iota zeta. cbn [ui calls].
  rewrite !length_snoc, Htn. cbn beta iota zeta. cbn [ui calls].
  rewrite !length_snoc, Htb. cbn beta iota zeta.
  destruct (Body.success tdata); cbn beta iota zeta;
    repeat (split; [reflexivity |]); calls_made; reflexivity.
Qed.

Lemma fetchPosts_full_pipeline_witness :
  let s' := exec fetchPosts vanishing_posts (boot initial) in
  posts (ui s') = [post1]
  /\ totalPosts (ui s') = 1%Qc
  /\ placedImages (ui s') = [place_at_origin post1]
  /\ loading (ui s') = false.
Proof.
  intros s'.
  destruct (fetchPosts_full_pipeline vanishing_posts (boot initial)
              one_post one_post
              [("p1"%string, ImageDimensions.mk (Q2Qc 300) (Q2Qc 300))]
              post1 [place_at_origin post1])
    as (Hp & Ht & _ & Hpl & _ & Hl & _);
    try reflexivity; try (split; reflexivity); try discriminate.
  repeat split; assumption.
Defined.

(** X24.  A full fetch whose posts request, or the reading of its body,
    throws: nothing changes but the loading flag, which is cleared; the
    error is reported on the console, and the trending hashtags are not
    requested. *)
Theorem fetchPosts_failed_request_keeps_feed :
  forall (w : World) (s : Sys),
    (forall data : Body.t,
        ~ answers w (List.length (calls s)) (GetPosts None) data) ->
    let s' := exec fetchPosts w s in
    ui s' = setLoading false (ui s)
    /\ existsb is_trending_request (calls_since s s') = false
    /\ In (ConsoleError "Error fetching data:") (calls_since s s').
Proof.
  intros w s Hfail. unfold exec, fetchPosts. unfold_M.
  cbn beta iota zeta. cbn [ui calls].
  destruct (network w _ _) as [[] | e] eqn:Hn; cbn beta iota zeta;
    cbn [ui calls].
  - rewrite length_snoc.
    destruct (body_of w _ _) as [data | e] eqn:Hb; cbn beta iota zeta.
    + exfalso. apply (Hfail data). split; assumption.
    + split; [reflexivity |]. calls_made.
      split; [reflexivity | right; right; left; reflexivity].
  - split; [reflexivity |]. calls_made.
    split; [reflexivity | right; left; reflexivity].
Qed.

Lemma fetchPosts_failed_request_keeps_feed_witness :
  ui (exec fetchPosts offline (boot initial)) = setLoading false initial.
Proof.
  apply (fetchPosts_failed_request_keeps_feed offline (boot initial)).
  intros data [Hn _]. discriminate Hn.
Defined.

(** ** Uploads *)

Lemma handleUpload_unfold (w : World) (s : Sys) (image : File)
    (who : Student.t) :
  selectedImage (ui s) = Some image ->
  student (ui s) = Some who ->
  handleUpload w s
  = try_finally
      (try_catch
         (bind (set (setUploading true))
            (fun _ =>
               bind (fetch (PostUpload (upload_form (ui s) image who)))
                 (fun response =>
                    bind (json response)
                      (fun data =>
                         if Body.success data
                         then
                           bind (set (setSelectedImage None))
                             (fun _ =>
                                bind (set (setImagePreview ""))
                                  (fun _ =>
                                     bind (set (setHashtags []))
                                       (fun _ =>
                                          bind
                                            (set (setUploadModalOpen false))
                                            (fun _ => fetchPosts))))
                         else
                           alert ("Failed to upload image: "
                                  ++ Body.error data)%string))))
         (fun _ =>
            bind (console_error "Upload error:")
              (fun _ => alert "Failed to upload image")))
      (set (setUploading false)) w s.
Proof.
  intros Hi Hs. unfold handleUpload.
  unfold bind at 1. unfold render at 1. cbn beta iota zeta.
  rewrite Hi, Hs. reflexivity.
Qed.

(** X25.  An upload that is accepted (the request goes through and its
    body says success): the form is emptied (no image, no preview, no
    hashtag), the modal is closed, the uploading flag is cleared, the posts
    are fetched again, and no alert is raised, whatever happens during
    that fetch. *)
Theorem accepted_upload_resets_form :
  forall (w : World) (s : Sys) (image : File) (who : Student.t)
         (data : Body.t),
    selectedImage (ui s) = Some image ->
    student (ui s) = Some who ->
    let request := PostUpload (upload_form (ui s) image who) in
    answers w (List.length (calls s)) request data ->
    Body.success data = true ->
    let s' := exec handleUpload w s in
    selectedImage (ui s') = None
    /\ imagePreview (ui s') = ""
    /\ hashtags (ui s') = []
    /\ uploadModalOpen (ui s') = false
    /\ uploading (ui s') = false
    /\ loading (ui s') = false
    /\ existsb is_alert (calls_since s s') = false
    /\ exists rest : list Call,
         calls_since s s'
         = Fetch request :: ReadJson request :: Fetch (GetPosts None) :: rest.
Proof.
  intros w s image who data Hi Hst request [Hn Hb] Hs.
  unfold exec. rewrite (handleUpload_unfold w s image who Hi Hst).
  fold request.
  unfold try_finally, try_catch, fetch, json, bind, ret, set, perform.
  cbn beta iota zeta. cbn [ui calls].
  rewrite Hn. cbn beta iota zeta. cbn [ui calls]. rewrite length_snoc, Hb.
  cbn beta iota zeta. rewrite Hs. cbn beta iota zeta.
  match goal with
  | |- context [fetchPosts w ?s0] =>
      pose proof (fetchPosts_effects w s0) as Hf;
      destruct (fetchPosts_returns w s0) as (s1 & Hret & _)
  end.
  cbv zeta in Hf. unfold exec in Hf. rewrite Hret in *.
  cbn [snd ui calls] in Hf.
  destruct Hf as (Hform & Hload & rest & Hcalls & Hrest).
  destruct Hform as (_ & _ & Hmodal & Himg & Hprev & Htags & _ & _).
  cbn beta iota zeta. cbn [snd ui calls uploading selectedImage imagePreview
                           hashtags uploadModalOpen loading setUploading].
  rewrite <- Himg, <- Hprev, <- Htags, <- Hmodal, Hload.
  repeat (split; [reflexivity |]).
  unfold calls_since. cbn [calls]. rewrite Hcalls.
  repeat rewrite <- app_assoc. rewrite skipn_length_app. cbn [app].
  split; [| exists rest; reflexivity].
  cbn [existsb is_alert orb]. exact Hrest.
Qed.

Lemma accepted_upload_resets_form_witness :
  let st := setHashtags ["cat"]
              (setSelectedImage (Some "cat.png")
                 (setStudent (Some (Student.mk "Ann")) initial)) in
  let s' := exec handleUpload vanishing_posts (boot st) in
  selectedImage (ui s') = None /\ hashtags (ui s') = []
  /\ existsb is_alert (calls_since (boot st) s') = false.
Proof.
  intros st s'.
  destruct (accepted_upload_resets_form vanishing_posts (boot st) "cat.png"
              (Student.mk "Ann") one_post)
    as (H1 & _ & H3 & _ & _ & _ & H7 & _);
    try reflexivity; [split; reflexivity |].
  repeat split; assumption.
Defined.

(** X26.  An upload that is not accepted (the request throws, its body
    cannot be read, or it says no success): the image, the preview, the
    hashtags and the open modal are kept for another try, only the
    uploading flag is cleared; exactly one alert is raised and the posts
    are not fetched. *)
Theorem refused_upload_keeps_form :
  forall (w : World) (s : Sys) (image : File) (who : Student.t),
    selectedImage (ui s) = Some image ->
    student (ui s) = Some who ->
    (forall data : Body.t,
        answers w (List.length (calls s))
                (PostUpload (upload_form (ui s) image who)) data ->
        Body.success data = false) ->
    let s' := exec handleUpload w s in
    ui s' = setUploading false (ui s)
    /\ (exists msg : string,
           filter is_alert (calls_since s s') = [Alert msg])
    /\ existsb is_posts_request (calls_since s s') = false.
Proof.
  intros w s image who Hi Hst Hrefused.
  unfold exec. rewrite (handleUpload_unfold w s image who Hi Hst).
  unfold try_finally, try_catch, fetch, json, alert, console_error,
    bind, ret, set, perform, tell.
  cbn beta iota zeta. cbn [ui calls].
  destruct (network w _ _) as [[] | e] eqn:Hn; cbn beta iota zeta;
    cbn [ui calls].
  - rewrite length_snoc.
    destruct (body_of w _ _) as [data | e] eqn:Hb; cbn beta iota zeta.
    + rewrite (Hrefused data (conj Hn Hb)). cbn beta iota zeta.
      split; [reflexivity |]. calls_made.
      split; [eexists; reflexivity | reflexivity].
    + split; [reflexivity |]. calls_made.
      split; [eexists; reflexivity | reflexivity].
  - split; [reflexivity |]. calls_made.
    split; [eexists; reflexivity | reflexivity].
Qed.

Lemma refused_upload_keeps_form_witness :
  let st := setHashtags ["cat"]
              (setSelectedImage (Some "cat.png")
                 (setStudent (Some (Student.mk "Ann")) initial)) in
  ui (exec handleUpload offline (boot st)) = setUploading false st.
Proof.
  intros st.
  apply (refused_upload_keeps_form offline (boot st) "cat.png"
           (Student.mk "Ann")); try reflexivity.
  intros data [Hn _]. discriminate Hn.
Defined.

(** With an image and a student, the first thing [handleUpload] does to
    the outside is to send the upload request. *)
Lemma handleUpload_first_call (w : World) (s : Sys) (image : File)
    (who : Student.t) :
  selectedImage (ui s) = Some image ->
  student (ui s) = Some who ->
  exists rest : list Call,
    calls (exec handleUpload w s)
    = calls s ++ Fetch (PostUpload (upload_form (ui s) image who)) :: rest.
Proof.
  intros Hi Hst.
  unfold exec. rewrite (handleUpload_unfold w s image who Hi Hst).
  unfold try_finally, try_catch, fetch, json, alert, console_error,
    bind, ret, set, perform, tell.
  cbn beta iota zeta. cbn [ui calls].
  destruct (network w _ _) as [[] | e]; cbn beta iota zeta;
    cbn [ui calls].
  - destruct (body_of w _ _) as [data | e]; cbn beta iota zeta.
    + destruct (Body.success data); cbn beta iota zeta.
      * match goal with
        | |- context [fetchPosts w ?s0] =>
            pose proof (fetchPosts_effects w s0) as Hf;
            destruct (fetchPosts_returns w s0) as (s1 & Hret & _)
        end.
        cbv zeta in Hf. unfold exec in Hf. rewrite Hret in *.
        cbn [snd ui calls] in Hf.
        destruct Hf as (_ & _ & rest & Hcalls & _).
        cbn beta iota zeta. cbn [snd calls]. rewrite Hcalls.
        repeat rewrite <- app_assoc. cbn [app].
        eexists. reflexivity.
      * cbn [snd calls]. repeat rewrite <- app_assoc. cbn [app].
        eexists. reflexivity.
    + cbn [snd calls]. repeat rewrite <- app_assoc. cbn [app].
      eexists. reflexivity.
  - cbn [snd calls]. repeat rewrite <- app_assoc. cbn [app].
    eexists. reflexivity.
Qed.

(** X27.  [handleUpload] does nothing at all (no state change, no call)
    exactly when no image is selected or the student is not known;
    otherwise it makes at least one call, and the first call it makes is
    the upload request, with the selected image, the hashtags and the name
    of the student. *)
Theorem handleUpload_needs_image_and_student :
  forall (w : World) (s : Sys),
    (exec handleUpload w s = s
     <-> (selectedImage (ui s) = None \/ student (ui s) = None))
    /\ (forall (image : File) (who : Student.t),
           selectedImage (ui s) = Some image ->
           student (ui s) = Some who ->
           calls_since s (exec handleUpload w s) <> []
           /\ exists rest : list Call,
                calls_since s (exec handleUpload w s)
                = Fetch (PostUpload (upload_form (ui s) image who)) :: rest).
Proof.
  intros w s.
  assert (Hcalls : forall (image : File) (who : Student.t),
             selectedImage (ui s) = Some image ->
             student (ui s) = Some who ->
             exists rest : list Call,
               calls_since s (exec handleUpload w s)
               = Fetch (PostUpload (upload_form (ui s) image who)) :: rest).
  { intros image who Hi Hst.
    destruct (handleUpload_first_call w s image who Hi Hst) as (rest & E).
    exists rest. unfold calls_since. rewrite E. apply skipn_length_app. }
  split; [split |].
  - intros H.
    destruct (selectedImage (ui s)) as [image |] eqn:Hi; [| left; reflexivity].
    destruct (student (ui s)) as [who |] eqn:Hst; [| right; reflexivity].
    exfalso.
    destruct (Hcalls image who eq_refl eq_refl) as (rest & E).
    rewrite H in E. unfold calls_since in E.
    rewrite skipn_all in E. discriminate E.
  - unfold exec, handleUpload.
    unfold bind at 1. unfold render at 1. cbn beta iota zeta.
    intros [H | H].
    + rewrite H. reflexivity.
    + rewrite H. destruct (selectedImage (ui s)); reflexivity.
  - intros image who Hi Hst.
    destruct (Hcalls image who Hi Hst) as (rest & E).
    split; [rewrite E; discriminate | exists rest; exact E].
Qed.

Lemma handleUpload_needs_image_and_student_witness :
  let st := setHashtags ["cat"]
              (setSelectedImage (Some "cat.png")
                 (setStudent (Some (Student.mk "Ann")) initial)) in
  exec handleUpload offline (boot initial) = boot initial
  /\ exists rest : list Call,
       calls_since (boot st) (exec handleUpload offline (boot st))
       = Fetch (PostUpload (FormData.mk "cat.png" ["cat"] "Ann")) :: rest.
Proof.
  intros st. split.
  - apply (handleUpload_needs_image_and_student offline (boot initial)).
    left. reflexivity.
  - apply (proj2 (handleUpload_needs_image_and_student offline (boot st))
             "cat.png" (Student.mk "Ann")); reflexivity.
Defined.

End ExploreTheory.
